(** * Solana Wallet Inspector: a shallow embedding of [sol_inspect.py]

    The development has three parts.  Part I embeds the program: the
    slice of the Python runtime it relies on (exceptions, [str], [int],
    truthiness, IEEE doubles, JSON values), then the functions of
    [sol_inspect.py] in source order.  Part II states and proves the
    main properties of those functions, Part III further ones.

    Conventions.  A Python [int] is a [Z]; a [float] is an IEEE-754
    binary64 value in the [spec_float] representation; a [str] is a
    [string] whose characters stand for code points below 256; [bytes]
    is a list of [Z] in the range 0..255; a function that may raise
    returns a [result]. *)

From Stdlib Require Import ZArith List String Ascii Bool Lia QArith Lqa.
From Stdlib Require Import Floats.SpecFloat.
From Stdlib Require Import Numbers.DecimalString Numbers.DecimalZ Numbers.DecimalPos.
Import ListNotations.

Local Open Scope string_scope.
Local Open Scope Z_scope.

(* ================================================================== *)
(** * Part I.  The model                                               *)
(* ================================================================== *)

(** ** Exceptions and fallible computations *)

Module Py.

(** The exception classes the program raises or meets.  [NetworkError]
    stands for whatever subclass of [Exception] [requests.post] raises
    (connection errors, timeouts...). *)
Inductive exn_class : Type :=
  | ValueError
  | TypeError
  | AttributeError
  | OverflowError
  | ZeroDivisionError
  | KeyError
  | RPCError
  | NetworkError.

(** An exception instance: its class and [str(exc)]. *)
Record exn : Type := Exn { exn_cls : exn_class; exn_msg : string }.

Inductive result (A : Type) : Type :=
  | Ok (a : A)
  | Raise (e : exn).
Arguments Ok {A} a.
Arguments Raise {A} e.

Definition bind {A B : Type} (r : result A) (k : A -> result B) : result B :=
  match r with
  | Ok a => k a
  | Raise e => Raise e
  end.

Definition exn_class_eqb (c1 c2 : exn_class) : bool :=
  match c1, c2 with
  | ValueError, ValueError | TypeError, TypeError
  | AttributeError, AttributeError | OverflowError, OverflowError
  | ZeroDivisionError, ZeroDivisionError | KeyError, KeyError
  | RPCError, RPCError | NetworkError, NetworkError => true
  | _, _ => false
  end.

(** [try: body / except cls as exc: handler exc]. *)
Definition try_except {A : Type} (body : result A) (cls : exn_class)
  (handler : exn -> result A) : result A :=
  match body with
  | Ok a => Ok a
  | Raise e => if exn_class_eqb (exn_cls e) cls then handler e else Raise e
  end.

(** [for x in xs: body x], for a body that may raise. *)
Fixpoint for_each {A B : Type} (body : A -> result B) (xs : list A)
  : result (list B) :=
  match xs with
  | [] => Ok []
  | x :: xs' =>
      bind (body x) (fun b =>
      bind (for_each body xs') (fun bs => Ok (b :: bs)))
  end.

(** ** Strings *)

Definition chars (s : string) : list ascii := list_ascii_of_string s.

Definition str_of_char (c : ascii) : string := String c EmptyString.

Definition mem_char (c : ascii) (cs : list ascii) : bool :=
  existsb (Ascii.eqb c) cs.

(** [s.find(ch)] for a one-character [ch]: the first index, or -1. *)
Fixpoint find_from (cs : list ascii) (ch : ascii) (i : Z) : Z :=
  match cs with
  | [] => -1
  | c :: cs' => if Ascii.eqb c ch then i else find_from cs' ch (i + 1)
  end.

Definition find (s : string) (ch : ascii) : Z := find_from (chars s) ch 0.

(** [s.lstrip(set)] and [s.rstrip(set)]: drop the leading (trailing)
    characters that belong to [set]. *)
Fixpoint lstrip_chars (set : list ascii) (cs : list ascii) : list ascii :=
  match cs with
  | [] => []
  | c :: cs' => if mem_char c set then lstrip_chars set cs' else cs
  end.

Definition lstrip (s set : string) : string :=
  string_of_list_ascii (lstrip_chars (chars set) (chars s)).

Definition rstrip (s set : string) : string :=
  string_of_list_ascii (rev (lstrip_chars (chars set) (rev (chars s)))).

Definition len (s : string) : Z := Z.of_nat (String.length s).

(** [str(n)] for an [int]: its decimal digits, with a minus sign when
    negative. *)
Definition str_of_int (n : Z) : string := NilZero.string_of_int (Z.to_int n).

(** ** Integers *)

(** [n.bit_length()]. *)
Definition bit_length (n : Z) : Z :=
  if Z.abs n =? 0 then 0 else Z.log2 (Z.abs n) + 1.

(** The big-endian bytes of [num] on exactly [length] positions. *)
Fixpoint big_endian_digits (num : Z) (length : nat) : list Z :=
  match length with
  | O => []
  | S n => (num / 256 ^ Z.of_nat n) mod 256 :: big_endian_digits num n
  end.

(** [num.to_bytes(length, "big")] for an unsigned conversion: a negative
    [num], or one that needs more than [length] bytes, raises
    [OverflowError]. *)
Definition to_bytes_big (num : Z) (length : Z) : result (list Z) :=
  if num <? 0 then
    Raise (Exn OverflowError "can't convert negative int to unsigned")
  else if num <? 256 ^ length then
    Ok (big_endian_digits num (Z.to_nat length))
  else Raise (Exn OverflowError "int too big to convert").

(** [sep.join(parts)]. *)
Fixpoint join (sep : string) (parts : list string) : string :=
  match parts with
  | [] => EmptyString
  | [p] => p
  | p :: rest => p ++ sep ++ join sep rest
  end.

(** [str(n).zfill(width)] for a non-negative [n]. *)
Definition zero_padded (width : nat) (n : Z) : string :=
  let digits := str_of_int n in
  string_of_list_ascii
    (repeat "0"%char (width - String.length digits)) ++ digits.

(** ** Floats: IEEE-754 binary64 *)

Definition float : Type := spec_float.
Definition prec : Z := 53.
Definition emax : Z := 1024.

(** The float nearest to [m * 2 ^ e]. *)
Definition float_of_dyadic (m e : Z) : float :=
  binary_normalize prec emax m e false.

(** The exact value of a finite float. *)
Definition float_value (x : float) : option Q :=
  match x with
  | S754_zero _ => Some 0%Q
  | S754_finite s m e =>
      let mag :=
        if 0 <=? e then inject_Z (Zpos m * 2 ^ e)
        else Qred (Zpos m # Z.to_pos (2 ^ (- e))) in
      Some (if s then Qopp mag else mag)
  | _ => None
  end.

(** [a / b] on two [int]s: the quotient rounded to the nearest double,
    ties to even.  [q] keeps at least 55 significant bits of the
    quotient and [loc] records where the discarded remainder lies. *)
Definition int_true_div (a b : Z) : result float :=
  if b =? 0 then Raise (Exn ZeroDivisionError "division by zero")
  else
    let negate := xorb (a <? 0) (b <? 0) in
    if a =? 0 then Ok (S754_zero negate)
    else
      let a' := Z.abs a in
      let b' := Z.abs b in
      let k := Z.max 0 (Zdigits2 b' + 55 - Zdigits2 a') in
      let q := (a' * 2 ^ k) / b' in
      let r := (a' * 2 ^ k) mod b' in
      let loc :=
        if r =? 0 then loc_Exact else loc_Inexact (Z.compare (2 * r) b') in
      match binary_round_aux prec emax negate q (- k) loc with
      | S754_infinity _ =>
          Raise (Exn OverflowError
                   "integer division result too large for a float")
      | x => Ok x
      end.

(** [n] rounded half-to-even from the fraction [num / den], [den > 0]. *)
Definition round_half_even (num den : Z) : Z :=
  let q := num / den in
  let r := num mod den in
  match Z.compare (2 * r) den with
  | Lt => q
  | Gt => q + 1
  | Eq => if Z.even q then q else q + 1
  end.

(** [format(x, ".Nf")]: the exact value of [x] rounded half-to-even to
    [N] decimals, always with a decimal point when [N > 0]. *)
Definition format_fixed (decimals : nat) (x : float) : string :=
  let render (s : bool) (scaled : Z) :=
    let unit := 10 ^ Z.of_nat decimals in
    (if s then "-" else EmptyString)
      ++ str_of_int (scaled / unit)
      ++ (match decimals with
          | O => EmptyString
          | _ => "." ++ zero_padded decimals (scaled mod unit)
          end) in
  match x with
  | S754_nan => "nan"
  | S754_infinity s => if s then "-inf" else "inf"
  | S754_zero s => render s 0
  | S754_finite s m e =>
      let scaled :=
        if 0 <=? e then Zpos m * 2 ^ e * 10 ^ Z.of_nat decimals
        else round_half_even (Zpos m * 10 ^ Z.of_nat decimals) (2 ^ (- e)) in
      render s scaled
  end.

(** ** JSON values, as [json.loads] builds them

    [None], [bool], [int], [float], [str], [list] and [dict].  A [dict]
    is kept as its items in insertion order; the parser leaves no
    duplicate key, and a lookup takes the first match. *)

#[local] Set Warnings "-register-all".
Inductive json : Type :=
  | JNull
  | JBool (b : bool)
  | JInt (n : Z)
  | JFloat (f : float)
  | JStr (s : string)
  | JList (items : list json)
  | JDict (fields : list (string * json)).

Definition type_name (v : json) : string :=
  match v with
  | JNull => "NoneType"
  | JBool _ => "bool"
  | JInt _ => "int"
  | JFloat _ => "float"
  | JStr _ => "str"
  | JList _ => "list"
  | JDict _ => "dict"
  end.

(** [bool(v)]. *)
Definition truthy (v : json) : bool :=
  match v with
  | JNull => false
  | JBool b => b
  | JInt n => negb (n =? 0)
  | JFloat (S754_zero _) => false
  | JFloat _ => true
  | JStr s => negb (len s =? 0)
  | JList items => match items with [] => false | _ => true end
  | JDict fields => match fields with [] => false | _ => true end
  end.

(** [v is None]. *)
Definition is_none (v : json) : bool :=
  match v with JNull => true | _ => false end.

Fixpoint lookup (key : string) (fields : list (string * json)) : option json :=
  match fields with
  | [] => None
  | (k, v) :: rest => if String.eqb k key then Some v else lookup key rest
  end.

Definition no_attribute (v : json) (attr : string) : exn :=
  Exn AttributeError
    ("'" ++ type_name v ++ "' object has no attribute '" ++ attr ++ "'").

(** [obj.get(key, default)]; only a [dict] has the method. *)
Definition get (obj : json) (key : string) (default : json) : result json :=
  match obj with
  | JDict fields =>
      Ok (match lookup key fields with Some v => v | None => default end)
  | _ => Raise (no_attribute obj "get")
  end.

(** [for x in obj]: the items of a list, the keys of a dict, the
    characters of a string; nothing else is iterable. *)
Definition iterate (obj : json) : result (list json) :=
  match obj with
  | JList items => Ok items
  | JDict fields => Ok (map (fun kv => JStr (fst kv)) fields)
  | JStr s => Ok (map (fun c => JStr (str_of_char c)) (chars s))
  | _ => Raise (Exn TypeError
                  ("'" ++ type_name obj ++ "' object is not iterable"))
  end.

(** The behaviour of the interpreter and its library that the program
    reaches but that lies outside this development: the shortest
    round-trip [repr] of a float, the quoting of [repr] on a string, the
    literal syntax [int] accepts in a string, [datetime.fromtimestamp]
    on a float, and the exception [datetime.fromtimestamp] picks for an
    integer it cannot represent. *)
Class Runtime : Type := {
  float_repr : float -> string;
  str_repr : string -> string;
  int_of_str : string -> option Z;
  fromtimestamp_float : float -> result string;
  fromtimestamp_range_error : Z -> exn
}.

Section WithRuntime.
Context {RT : Runtime}.

(** [repr(v)]. *)
Fixpoint repr (v : json) : string :=
  match v with
  | JNull => "None"
  | JBool b => if b then "True" else "False"
  | JInt n => str_of_int n
  | JFloat f => float_repr f
  | JStr s => str_repr s
  | JList items => "[" ++ join ", " (map repr items) ++ "]"
  | JDict fields =>
      "{" ++ join ", "
               (map (fun kv => let '(k, x) := kv in
                               str_repr k ++ ": " ++ repr x) fields)
          ++ "}"
  end.

(** [str(v)]: a string is itself, anything else is its [repr]. *)
Definition str (v : json) : string :=
  match v with
  | JStr s => s
  | _ => repr v
  end.

(** [obj[key]] for a string key. *)
Definition getitem (obj : json) (key : string) : result json :=
  match obj with
  | JDict fields =>
      match lookup key fields with
      | Some v => Ok v
      | None => Raise (Exn KeyError (str_repr key))
      end
  | JList _ =>
      Raise (Exn TypeError "list indices must be integers or slices, not str")
  | JStr _ => Raise (Exn TypeError "string indices must be integers, not 'str'")
  | _ => Raise (Exn TypeError
                  ("'" ++ type_name obj ++ "' object is not subscriptable"))
  end.

(** [key in obj] for a string key and a [dict]. *)
Definition contains (obj : json) (key : string) : result bool :=
  match obj with
  | JDict fields =>
      Ok (match lookup key fields with Some _ => true | None => false end)
  | JList items =>
      Ok (existsb (fun x => match x with
                            | JStr s => String.eqb s key
                            | _ => false
                            end) items)
  | JStr s => Ok (match index 0 key s with Some _ => true | None => false end)
  | _ => Raise (Exn TypeError
                  ("argument of type '" ++ type_name obj
                     ++ "' is not iterable"))
  end.

(** [int(v)]. *)
Definition int (v : json) : result Z :=
  match v with
  | JInt n => Ok n
  | JBool b => Ok (if b then 1 else 0)
  | JFloat S754_nan =>
      Raise (Exn ValueError "cannot convert float NaN to integer")
  | JFloat (S754_infinity _) =>
      Raise (Exn OverflowError "cannot convert float infinity to integer")
  | JFloat (S754_zero _) => Ok 0
  | JFloat (S754_finite s m e) =>
      let mag := if 0 <=? e then Zpos m * 2 ^ e else Zpos m / 2 ^ (- e) in
      Ok (if s then - mag else mag)
  | JStr s =>
      match int_of_str s with
      | Some n => Ok n
      | None =>
          Raise (Exn ValueError
                   ("invalid literal for int() with base 10: " ++ str_repr s))
      end
  | _ =>
      Raise (Exn TypeError
               ("int() argument must be a string, a bytes-like object "
                  ++ "or a real number, not '" ++ type_name v ++ "'"))
  end.

(** *** [json.dumps] *)

Definition hex_digit (n : Z) : ascii :=
  nth (Z.to_nat n) (chars "0123456789abcdef") "0"%char.

Definition code (c : ascii) : Z := Z.of_nat (nat_of_ascii c).

(** The escape of one character under [ensure_ascii]: the short escapes,
    and [\u00XX] for every other character outside [' '..'~']. *)
Definition escape_char (c : ascii) : string :=
  let backslash := str_of_char (ascii_of_nat 92) in
  let n := code c in
  if n =? 34 then backslash ++ str_of_char c
  else if n =? 92 then backslash ++ backslash
  else if n =? 10 then backslash ++ "n"
  else if n =? 13 then backslash ++ "r"
  else if n =? 9 then backslash ++ "t"
  else if n =? 8 then backslash ++ "b"
  else if n =? 12 then backslash ++ "f"
  else if (n <? 32) || (126 <? n) then
    backslash ++ "u00"
      ++ str_of_char (hex_digit (n / 16)) ++ str_of_char (hex_digit (n mod 16))
  else str_of_char c.

Definition json_string (s : string) : string :=
  let quote := str_of_char (ascii_of_nat 34) in
  quote ++ concat EmptyString (map escape_char (chars s)) ++ quote.

(** [json.dumps(v, separators=(item_sep, key_sep))], all other options
    at their defaults.  On a value that came out of [json.loads] it never
    raises. *)
Fixpoint dumps (item_sep key_sep : string) (v : json) : string :=
  match v with
  | JNull => "null"
  | JBool b => if b then "true" else "false"
  | JInt n => str_of_int n
  | JFloat S754_nan => "NaN"
  | JFloat (S754_infinity s) => if s then "-Infinity" else "Infinity"
  | JFloat f => float_repr f
  | JStr s => json_string s
  | JList items =>
      "[" ++ join item_sep (map (dumps item_sep key_sep) items) ++ "]"
  | JDict fields =>
      "{" ++ join item_sep
               (map (fun kv => let '(k, x) := kv in
                               json_string k ++ key_sep
                                 ++ dumps item_sep key_sep x) fields)
          ++ "}"
  end.

Definition json_dumps (v : json) (item_sep key_sep : string) : result string :=
  Ok (dumps item_sep key_sep v).

(** *** [datetime.fromtimestamp(ts, tz=timezone.utc).isoformat()] *)

(** The proleptic Gregorian date of a day count from 1970-01-01, by
    400-year eras that start on 1 March. *)
Definition civil_from_days (days : Z) : Z * Z * Z :=
  let shifted := days + 719468 in
  let era := shifted / 146097 in
  let day_of_era := shifted mod 146097 in
  let year_of_era :=
    (day_of_era - day_of_era / 1460 + day_of_era / 36524
       - day_of_era / 146096) / 365 in
  let day_of_year :=
    day_of_era - (365 * year_of_era + year_of_era / 4 - year_of_era / 100) in
  let march_month := (5 * day_of_year + 2) / 153 in
  let day := day_of_year - (153 * march_month + 2) / 5 + 1 in
  let month := if march_month <? 10 then march_month + 3 else march_month - 9 in
  let year := year_of_era + era * 400 + (if month <=? 2 then 1 else 0) in
  (year, month, day).

(** The first and the last second of the years 1..9999. *)
Definition min_timestamp : Z := -62135596800.
Definition max_timestamp : Z := 253402300799.

Definition isoformat_utc (ts : Z) : string :=
  let '(year, month, day) := civil_from_days (ts / 86400) in
  let second_of_day := ts mod 86400 in
  zero_padded 4 year ++ "-" ++ zero_padded 2 month ++ "-" ++ zero_padded 2 day
    ++ "T" ++ zero_padded 2 (second_of_day / 3600)
    ++ ":" ++ zero_padded 2 (second_of_day / 60 mod 60)
    ++ ":" ++ zero_padded 2 (second_of_day mod 60)
    ++ "+00:00".

Definition fromtimestamp_int (ts : Z) : result string :=
  if (min_timestamp <=? ts) && (ts <=? max_timestamp)
  then Ok (isoformat_utc ts)
  else Raise (fromtimestamp_range_error ts).

Definition fromtimestamp_utc_isoformat (ts : json) : result string :=
  match ts with
  | JInt n => fromtimestamp_int n
  | JBool b => fromtimestamp_int (if b then 1 else 0)
  | JFloat f => fromtimestamp_float f
  | _ => Raise (Exn TypeError
                  ("'" ++ type_name ts
                     ++ "' object cannot be interpreted as an integer"))
  end.

End WithRuntime.

End Py.

Import Py.

Notation "x <- c ;; k" := (Py.bind c (fun x => k))
  (at level 61, c at next level, right associativity).

(* ------------------------------------------------------------------ *)
(** ** Base58 codec and address validation                             *)
(* ------------------------------------------------------------------ *)

Definition BASE58_ALPHABET : string :=
  "123456789ABCDEFGHJKLMNPQRSTUVWXYZabcdefghijkmnopqrstuvwxyz".

(** The loop of [base58_decode]: [num = num * 58 + idx] for every
    character, raising at the first one outside the alphabet. *)
Fixpoint base58_accumulate (cs : list ascii) (num : Z) : result Z :=
  match cs with
  | [] => Ok num
  | ch :: cs' =>
      let idx := find BASE58_ALPHABET ch in
      if idx =? -1 then
        Raise (Exn ValueError ("invalid base58 character: " ++ str_of_char ch))
      else base58_accumulate cs' (num * 58 + idx)
  end.

Definition base58_decode (value : string) : result (list Z) :=
  if (len value =? 0) then Raise (Exn ValueError "empty base58 string")
  else
    num <- base58_accumulate (chars value) 0 ;;
    combined <-
      (if num =? 0 then Ok []
       else to_bytes_big num ((bit_length num + 7) / 8)) ;;
    let pad := len value - len (lstrip value "1") in
    Ok (repeat 0 (Z.to_nat pad) ++ combined)%list.

Definition validate_address (address : string) : result unit :=
  decoded <-
    try_except (base58_decode address) ValueError
      (fun exc => Raise (Exn ValueError ("Invalid address: " ++ exn_msg exc))) ;;
  if negb (Z.of_nat (List.length decoded) =? 32) then
    Raise (Exn ValueError
      ("Invalid address length: decoded to "
         ++ str_of_int (Z.of_nat (List.length decoded))
         ++ " bytes, expected 32"))
  else Ok tt.


(* ------------------------------------------------------------------ *)
(** ** Display helpers                                                 *)
(* ------------------------------------------------------------------ *)

Definition lamports_to_sol (lamports : Z) : result float :=
  int_true_div lamports 1000000000.

Definition format_sol (sol : float) : string :=
  let text := format_fixed 9 sol in
  if mem_char "."%char (chars text) then rstrip (rstrip text "0") "."
  else text.

(** The balance as [_print_human] shows it:
    [format_sol(lamports_to_sol(sol_lamports))]. *)
Definition display_sol (sol_lamports : Z) : result string :=
  sol <- lamports_to_sol sol_lamports ;;
  Ok (format_sol sol).

Section Decoders.
Context {RT : Runtime}.

Definition _iso_time_from_blocktime (block_time : json) : result string :=
  if is_none block_time then Ok "N/A"
  else fromtimestamp_utc_isoformat block_time.

Definition _err_summary (err : json) : result string :=
  if is_none err then Ok EmptyString
  else
    try_except (json_dumps err "," ":") TypeError (fun _ => Ok (str err)).

(* ------------------------------------------------------------------ *)
(** ** Token accounts                                                  *)
(* ------------------------------------------------------------------ *)

(** The dictionary [parse_token_accounts] appends for a kept record. *)
Record token_holding : Type := {
  mint : json;
  token_account : json;
  amount_raw : string;
  decimals : Z;
  ui_amount : json
}.

(** One iteration of the loop of [parse_token_accounts]: [None] is the
    [continue]. *)
Definition parse_token_account (item : json) : result (option token_holding) :=
  pubkey <- get item "pubkey" JNull ;;
  account <- get item "account" (JDict []) ;;
  data <- get account "data" (JDict []) ;;
  parsed' <- get data "parsed" (JDict []) ;;
  parsed <- get parsed' "info" (JDict []) ;;
  mint <- get parsed "mint" JNull ;;
  token_amount <- get parsed "tokenAmount" (JDict []) ;;
  amount_raw <- get token_amount "amount" JNull ;;
  decimals <- get token_amount "decimals" JNull ;;
  ui_amount_str <- get token_amount "uiAmountString" JNull ;;
  ui_amount <-
    (if negb (is_none ui_amount_str) then Ok ui_amount_str
     else (x <- get token_amount "uiAmount" JNull ;; Ok (JStr (str x)))) ;;
  if negb (truthy pubkey && truthy mint
             && negb (is_none amount_raw) && negb (is_none decimals))
  then Ok None
  else
    decimals' <- int decimals ;;
    Ok (Some {| mint := mint;
                token_account := pubkey;
                amount_raw := str amount_raw;
                decimals := decimals';
                ui_amount := ui_amount |}).

(** The items kept by the loop, in order. *)
Fixpoint kept {A : Type} (xs : list (option A)) : list A :=
  match xs with
  | [] => []
  | Some x :: rest => x :: kept rest
  | None :: rest => kept rest
  end.

Definition parse_token_accounts (value : json) : result (list token_holding) :=
  items <- iterate value ;;
  tokens <- for_each parse_token_account items ;;
  Ok (kept tokens).

(* ------------------------------------------------------------------ *)
(** ** Signatures                                                      *)
(* ------------------------------------------------------------------ *)

(** The dictionary [get_signatures] appends for a record. *)
Record transaction_summary : Type := {
  signature : json;
  block_time : string;
  confirmation_status : json;
  err : string
}.

(** The body of the loop of [get_signatures]. *)
Definition signature_summary (entry : json) : result transaction_summary :=
  signature <- get entry "signature" JNull ;;
  block_time <- (t <- get entry "blockTime" JNull ;; _iso_time_from_blocktime t) ;;
  confirmation_status <- get entry "confirmationStatus" JNull ;;
  err <- (e <- get entry "err" JNull ;; _err_summary e) ;;
  Ok {| signature := signature;
        block_time := block_time;
        confirmation_status := confirmation_status;
        err := err |}.

(** The loop of [get_signatures] over the result of the request. *)
Definition decode_signatures (rpc_result : json)
  : result (list transaction_summary) :=
  entries <- iterate rpc_result ;;
  for_each signature_summary entries.

(** The decoding step of [get_balance]: [int(result.get("value", 0))]. *)
Definition decode_balance (rpc_result : json) : result Z :=
  value <- get rpc_result "value" (JInt 0) ;;
  int value.

(** The decoding step of [get_tokens]. *)
Definition decode_tokens (rpc_result : json) : result (list token_holding) :=
  value <- get rpc_result "value" (JList []) ;;
  parse_token_accounts value.

End Decoders.

(* ------------------------------------------------------------------ *)
(** ** The outside world: HTTP, the clock, the two output streams      *)
(* ------------------------------------------------------------------ *)

(** What the program reads of the object [requests.post] returns.
    [json_body] is the outcome of [response.json()]: [None] when it
    raises [ValueError]. *)
Record response : Type := {
  status_code : Z;
  text : string;
  json_body : option json
}.

Inductive post_outcome : Type :=
  | Raised (e : exn)
  | Responded (r : response).

(** The network: what the [n]-th call of [requests.post] of a run does,
    given the endpoint, the JSON payload and the timeout. *)
Definition network : Type := nat -> string -> json -> float -> post_outcome.

(** The report handed to [_print_json] or [_print_human]. *)
Record report : Type := {
  as_json : bool;
  report_address : string;
  sol_lamports : Z;
  tokens : list token_holding;
  transactions : list transaction_summary
}.

(** What the program does to the world: a call of [requests.post], a
    call of [time.sleep], the call of the printer of the report, a line
    on the error stream. *)
Inductive event : Type :=
  | Post (endpoint : string) (payload : json)
  | Sleep (secs : float)
  | Stdout (r : report)
  | Stderr (line : string).

(** The number of calls of [requests.post] so far, and everything the
    program did, oldest first. *)
Record world : Type := { posts : nat; trace : list event }.

(** A computation that may raise and acts on the world; the effects of
    a computation that raises stay. *)
Definition io (A : Type) : Type := world -> result A * world.

Definition ret {A : Type} (a : A) : io A := fun w => (Ok a, w).

Definition raise {A : Type} (e : exn) : io A := fun w => (Raise e, w).

Definition lift {A : Type} (r : result A) : io A := fun w => (r, w).

Definition io_bind {A B : Type} (c : io A) (k : A -> io B) : io B :=
  fun w =>
    match c w with
    | (Ok a, w') => k a w'
    | (Raise e, w') => (Raise e, w')
    end.

Notation "x <~ c ;; k" := (io_bind c (fun x => k))
  (at level 61, c at next level, right associativity).

(** [try: body / except Exception as exc: handler exc]. *)
Definition try_except_Exception {A : Type} (body : io A)
  (handler : exn -> io A) : io A :=
  fun w =>
    match body w with
    | (Ok a, w') => (Ok a, w')
    | (Raise e, w') => handler e w'
    end.

Definition emit (e : event) : io unit :=
  fun w => (Ok tt, {| posts := posts w; trace := trace w ++ [e] |}).

Definition sleep (secs : float) : io unit := emit (Sleep secs).

Section Client.
Context {RT : Runtime}.
Variable net : network.

(** [requests.post(endpoint, json=payload, timeout=timeout)]. *)
Definition post (endpoint : string) (payload : json) (timeout : float)
  : io response :=
  fun w =>
    let w' := {| posts := S (posts w);
                 trace := trace w ++ [Post endpoint payload] |} in
    match net (posts w) endpoint payload timeout with
    | Raised e => (Raise e, w')
    | Responded r => (Ok r, w')
    end.

(* ------------------------------------------------------------------ *)
(** ** The RPC client                                                  *)
(* ------------------------------------------------------------------ *)

Record RPCClient : Type := {
  endpoints : list string;
  timeout : float
}.

Definition backoffs : list float :=
  [float_of_dyadic 1 (-1); float_of_dyadic 1 0; float_of_dyadic 1 1].

(** The statements of the [try] block of [request] that follow
    [requests.post]: what one response amounts to. *)
Definition read_response (endpoint : string) (response : response)
  : result json :=
  if negb (status_code response =? 200) then
    Raise (Exn RPCError
             ("HTTP " ++ str_of_int (status_code response) ++ " from "
                ++ endpoint ++ ": " ++ text response))
  else
    data <-
      match json_body response with
      | Some data => Ok data
      | None =>
          Raise (Exn RPCError
                   ("Invalid JSON from " ++ endpoint ++ ": " ++ text response))
      end ;;
    error <- get data "error" JNull ;;
    if truthy error then
      error' <- getitem data "error" ;;
      Raise (Exn RPCError
               ("RPC error from " ++ endpoint ++ ": " ++ str error'))
    else
      has_result <- contains data "result" ;;
      if negb has_result then
        Raise (Exn RPCError
                 ("Malformed response from " ++ endpoint ++ ": " ++ str data))
      else getitem data "result".

(** The [try] block of [request]: one transport attempt. *)
Definition attempt_once (self : RPCClient) (endpoint : string) (payload : json)
  : io json :=
  response <~ post endpoint payload (timeout self) ;;
  lift (read_response endpoint response).

(** The inner loop of [request], [for attempt in range(...)], over the
    attempts still to make.  It yields [inl result] when the body
    returned, and otherwise [inr last_error] at the end of the loop. *)
Fixpoint attempt_loop (self : RPCClient) (endpoint : string) (payload : json)
  (attempts : list nat) (last_error : option exn) : io (json + option exn) :=
  match attempts with
  | [] => ret (inr last_error)
  | attempt :: rest =>
      try_except_Exception
        (data <~ attempt_once self endpoint payload ;; ret (inl data))
        (fun exc =>
           let last_error := Some exc in
           _ <~ (if (attempt <? List.length backoffs)%nat
                 then sleep (nth attempt backoffs (S754_zero false))
                 else ret tt) ;;
           attempt_loop self endpoint payload rest last_error)
  end.

(** The outer loop of [request], [for endpoint in self.endpoints]. *)
Fixpoint endpoint_loop (self : RPCClient) (payload : json)
  (remaining : list string) (last_error : option exn)
  : io (json + option exn) :=
  match remaining with
  | [] => ret (inr last_error)
  | endpoint :: rest =>
      r <~ attempt_loop self endpoint payload
             (seq 0 (List.length backoffs + 1)) last_error ;;
      match r with
      | inl data => ret (inl data)
      | inr last_error => endpoint_loop self payload rest last_error
      end
  end.

Definition request_payload (method : string) (params : list json) : json :=
  JDict [("jsonrpc", JStr "2.0"); ("id", JInt 1);
         ("method", JStr method); ("params", JList params)].

(** [str(last_error)]. *)
Definition str_of_last_error (last_error : option exn) : string :=
  match last_error with
  | None => "None"
  | Some exc => exn_msg exc
  end.

Definition request (self : RPCClient) (method : string) (params : list json)
  : io json :=
  let payload := request_payload method params in
  r <~ endpoint_loop self payload (endpoints self) None ;;
  match r with
  | inl data => ret data
  | inr last_error =>
      raise (Exn RPCError
               ("All RPC endpoints failed: " ++ str_of_last_error last_error))
  end.


(** *** The vocabulary of the properties of [request] *)

(** What the transport attempt made as the [n]-th post of the run
    amounts to, at a given endpoint: a result, or the exception the
    [except] clause of [request] catches. *)
Definition attempt_result (self : RPCClient) (payload : json) (n : nat)
  (endpoint : string) : result json :=
  match net n endpoint payload (timeout self) with
  | Raised e => Raise e
  | Responded r => read_response endpoint r
  end.

(** Everything [request] does on one endpoint that never answers: four
    posts with the three backoff delays between them. *)
Definition ladder (payload : json) (endpoint : string) : list event :=
  Post endpoint payload
    :: flat_map (fun delay => [Sleep delay; Post endpoint payload]) backoffs.

(** Everything [request] does when no endpoint ever answers. *)
Definition schedule (payload : json) (endpoints : list string) : list event :=
  flat_map (ladder payload) endpoints.

Definition is_post (e : event) : bool :=
  match e with Post _ _ => true | _ => false end.

Definition is_sleep (e : event) : bool :=
  match e with Sleep _ => true | _ => false end.

Definition count_posts (evs : list event) : nat :=
  List.length (filter is_post evs).

(** The delays of the sleeps of a trace, in order. *)
Fixpoint sleeps (evs : list event) : list float :=
  match evs with
  | [] => []
  | Sleep d :: rest => d :: sleeps rest
  | _ :: rest => sleeps rest
  end.

(** Every post of [evs] is a failed attempt, when the first of them is
    the [n]-th post of the run. *)
Fixpoint attempts_fail (self : RPCClient) (n : nat) (evs : list event) : Prop :=
  match evs with
  | [] => True
  | Post endpoint payload :: rest =>
      (exists exc, attempt_result self payload n endpoint = Raise exc)
      /\ attempts_fail self (S n) rest
  | _ :: rest => attempts_fail self n rest
  end.

(** The exception of the last failed attempt among the posts of [evs],
    or [last_error] when none failed. *)
Fixpoint last_failure (self : RPCClient) (n : nat) (evs : list event)
  (last_error : option exn) : option exn :=
  match evs with
  | [] => last_error
  | Post endpoint payload :: rest =>
      last_failure self (S n) rest
        (match attempt_result self payload n endpoint with
         | Raise exc => Some exc
         | Ok _ => last_error
         end)
  | _ :: rest => last_failure self n rest last_error
  end.

(* ------------------------------------------------------------------ *)
(** ** The three queries                                               *)
(* ------------------------------------------------------------------ *)

Definition TOKEN_PROGRAM_ID : string :=
  "TokenkegQfeZyiNwAJbNbGKPFXCWuBvf9Ss623VQ5DA".

Definition DEFAULT_ENDPOINTS : list string :=
  ["https://api.mainnet-beta.solana.com"; "https://solana.drpc.org"].

Definition get_balance (client : RPCClient) (address commitment : string)
  : io Z :=
  rpc_result <~ request client "getBalance"
                  [JStr address; JDict [("commitment", JStr commitment)]] ;;
  lift (decode_balance rpc_result).

Definition get_tokens (client : RPCClient) (address commitment : string)
  : io (list token_holding) :=
  rpc_result <~ request client "getTokenAccountsByOwner"
                  [JStr address;
                   JDict [("programId", JStr TOKEN_PROGRAM_ID)];
                   JDict [("encoding", JStr "jsonParsed");
                          ("commitment", JStr commitment)]] ;;
  lift (decode_tokens rpc_result).

Definition get_signatures (client : RPCClient) (address : string) (limit : Z)
  (commitment : string) : io (list transaction_summary) :=
  rpc_result <~ request client "getSignaturesForAddress"
                  [JStr address;
                   JDict [("limit", JInt limit);
                          ("commitment", JStr commitment)]] ;;
  lift (decode_signatures rpc_result).

(* ------------------------------------------------------------------ *)
(** ** The run                                                         *)
(* ------------------------------------------------------------------ *)

(** The namespace [parse_args] returns. *)
Record namespace : Type := {
  arg_address : string;
  arg_rpc : option (list string);
  arg_limit : Z;
  arg_timeout : float;
  arg_commitment : string;
  arg_json : bool;
  arg_no_tokens : bool;
  arg_no_txs : bool
}.

(** The three queries of [run], inside its second [try] block. *)
Definition run_queries (client : RPCClient) (args : namespace)
  : io (Z * list token_holding * list transaction_summary) :=
  sol_lamports <~ get_balance client (arg_address args) (arg_commitment args) ;;
  tokens <~
    (if negb (arg_no_tokens args)
     then get_tokens client (arg_address args) (arg_commitment args)
     else ret []) ;;
  transactions <~
    (if negb (arg_no_txs args)
     then get_signatures client (arg_address args) (arg_limit args)
            (arg_commitment args)
     else ret []) ;;
  ret (sol_lamports, tokens, transactions).

(** The client [run] builds: [args.rpc if args.rpc else
    DEFAULT_ENDPOINTS], with the timeout of the command line. *)
Definition run_client (args : namespace) : RPCClient :=
  let endpoints :=
    match arg_rpc args with
    | Some (e :: es) => e :: es
    | _ => DEFAULT_ENDPOINTS
    end in
  {| endpoints := endpoints; timeout := arg_timeout args |}.

(** [run], from the parsed arguments on; the value is the exit status.
    [inl status] is the [return 1] of the handler of the second [try]. *)
Definition run (args : namespace) : io Z :=
  match validate_address (arg_address args) with
  | Raise exc =>
      if exn_class_eqb (exn_cls exc) ValueError
      then _ <~ emit (Stderr (exn_msg exc)) ;; ret 2
      else raise exc
  | Ok _ =>
      let client := run_client args in
      queried <~
        try_except_Exception
          (r <~ run_queries client args ;; ret (inr r))
          (fun exc =>
             _ <~ emit (Stderr ("RPC error: " ++ exn_msg exc)) ;;
             ret (inl 1)) ;;
      match queried with
      | inl status => ret status
      | inr (sol_lamports, tokens, transactions) =>
          _ <~ emit (Stdout {| as_json := arg_json args;
                               report_address := arg_address args;
                               sol_lamports := sol_lamports;
                               tokens := tokens;
                               transactions := transactions |}) ;;
          ret 0
      end
  end.

End Client.


(** [sub] occurs in [s]. *)
Definition substring_of (sub s : string) : Prop :=
  exists before after, s = before ++ sub ++ after.

(** [evs] is an initial segment of [all]. *)
Definition prefix_of {A : Type} (evs all : list A) : Prop :=
  exists rest, all = (evs ++ rest)%list.

(** The world a computation leaves, with the events it added. *)
Definition extends (w w' : world) (new : list event) : Prop :=
  trace w' = (trace w ++ new)%list
  /\ posts w' = (posts w + count_posts new)%nat.

Section Outcome.
Context {RT : Runtime}.
Variable net : network.

(** How a loop of [request] ends, from the world [w] with [all] the
    events it would add if no attempt succeeded.  With [inl data] it
    stopped on a first successful attempt: every attempt before failed,
    and the events are the part of [all] up to that post.  With
    [inr last_error'] it ran through: all of [all] happened, every
    attempt failed, and [last_error'] is the last failure. *)
Definition loop_outcome (self : RPCClient) (payload : json) (all : list event)
  (last_error : option exn) (w w' : world) (r : json + option exn) : Prop :=
  exists new,
    extends w w' new /\
    match r with
    | inl data =>
        exists before endpoint,
          new = (before ++ [Post endpoint payload])%list
          /\ attempts_fail net self (posts w) before
          /\ attempt_result net self payload (posts w + count_posts before) endpoint
             = Ok data
          /\ prefix_of new all
    | inr last_error' =>
        new = all
        /\ attempts_fail net self (posts w) new
        /\ last_error' = last_failure net self (posts w) new last_error
    end.

End Outcome.


(** The JSON-RPC method a post asks for. *)
Definition post_method (ev : event) : option string :=
  match ev with
  | Post _ (JDict fields) =>
      match lookup "method" fields with
      | Some (JStr method) => Some method
      | _ => None
      end
  | _ => None
  end.

(** [ev] belongs to a request for [method]: a sleep, or a post of that
    method. *)
Definition traffic_of (method : string) (ev : event) : Prop :=
  is_sleep ev = true \/ post_method ev = Some method.

(** The world after [print(line, file=sys.stderr)]. *)
Definition with_stderr (w : world) (line : string) : world :=
  {| posts := posts w; trace := (trace w ++ [Stderr line])%list |}.

(** *** The vocabulary of the properties of the decoders *)

(** The field [key] of a JSON object, when it has one. *)
Definition member (obj : json) (key : string) : option json :=
  match obj with
  | JDict fields => lookup key fields
  | _ => None
  end.

(** The field [key] one level below an optional object. *)
Definition descend (o : option json) (key : string) : option json :=
  match o with
  | Some obj => member obj key
  | None => None
  end.

(** An absent field reads as [null]. *)
Definition value_or_null (o : option json) : json :=
  match o with
  | Some v => v
  | None => JNull
  end.

Definition is_object (v : json) : Prop :=
  match v with JDict _ => True | _ => False end.

Definition object_if_present (o : option json) : Prop :=
  match o with
  | Some v => is_object v
  | None => True
  end.

Section Records.
Context {RT : Runtime}.

(** The parsed account information of a token-account record, and its
    token amount. *)
Definition record_info (item : json) : option json :=
  descend (descend (descend (member item "account") "data") "parsed") "info".

Definition record_token_amount (item : json) : option json :=
  descend (record_info item) "tokenAmount".

(** The four fields a holding needs. *)
Definition record_pubkey (item : json) : json :=
  value_or_null (member item "pubkey").

Definition record_mint (item : json) : json :=
  value_or_null (descend (record_info item) "mint").

Definition record_amount (item : json) : json :=
  value_or_null (descend (record_token_amount item) "amount").

Definition record_decimals (item : json) : json :=
  value_or_null (descend (record_token_amount item) "decimals").

(** A record of the shape the node sends: an object whose nested levels
    are objects wherever they are present, with integer [decimals]. *)
Definition well_formed_token_record (item : json) : Prop :=
  is_object item
  /\ object_if_present (member item "account")
  /\ object_if_present (descend (member item "account") "data")
  /\ object_if_present (descend (descend (member item "account") "data") "parsed")
  /\ object_if_present (record_info item)
  /\ object_if_present (record_token_amount item)
  /\ match record_decimals item with
     | JNull | JInt _ => True
     | _ => False
     end.

(** The test of the loop: address and mint truthy, amount and decimals
    not [None]. *)
Definition complete (item : json) : bool :=
  truthy (record_pubkey item) && truthy (record_mint item)
  && negb (is_none (record_amount item))
  && negb (is_none (record_decimals item)).

(** The holding of a complete record. *)
Definition holding_of (item : json) : token_holding :=
  {| mint := record_mint item;
     token_account := record_pubkey item;
     amount_raw := str (record_amount item);
     decimals := match record_decimals item with JInt n => n | _ => 0 end;
     ui_amount :=
       let s := value_or_null (descend (record_token_amount item)
                                 "uiAmountString") in
       if is_none s
       then JStr (str (value_or_null (descend (record_token_amount item)
                                        "uiAmount")))
       else s |}.

(** A signature record of the shape the node sends: an object whose
    [blockTime] is absent, [null], or an integer [datetime] can hold. *)
Definition well_formed_signature_record (entry : json) : Prop :=
  is_object entry
  /\ match value_or_null (member entry "blockTime") with
     | JNull => True
     | JInt t => min_timestamp <= t <= max_timestamp
     | _ => False
     end.

(** The summary of a signature record. *)
Definition summary_of (entry : json) : transaction_summary :=
  {| signature := value_or_null (member entry "signature");
     block_time :=
       match value_or_null (member entry "blockTime") with
       | JInt t => isoformat_utc t
       | _ => "N/A"
       end;
     confirmation_status := value_or_null (member entry "confirmationStatus");
     err :=
       match value_or_null (member entry "err") with
       | JNull => EmptyString
       | e => dumps "," ":" e
       end |}.

End Records.

(** *** The decoding in the terms of the specification *)

(** The alphabet position of a character, for a character of the
    alphabet. *)
Definition base58_digit (c : ascii) : Z := find BASE58_ALPHABET c.

Definition in_alphabet (c : ascii) : Prop := In c (chars BASE58_ALPHABET).

(** The value of a big-endian digit string in base [b]:
    the sum of [d_i * b ^ (n - 1 - i)]. *)
Fixpoint big_endian_value (b : Z) (ds : list Z) : Z :=
  match ds with
  | [] => 0
  | d :: ds' => d * b ^ Z.of_nat (List.length ds') + big_endian_value b ds'
  end.

Definition base58_number (s : string) : Z :=
  big_endian_value 58 (map base58_digit (chars s)).

(** The little-endian base-256 digits of [n], stopping at the last
    non-zero one. *)
Fixpoint little_endian_bytes (fuel : nat) (n : Z) : list Z :=
  match fuel with
  | O => []
  | S fuel' =>
      if n <=? 0 then [] else n mod 256 :: little_endian_bytes fuel' (n / 256)
  end.

(** The minimal big-endian byte sequence of a natural number: no leading
    zero byte, the empty sequence for 0. *)
Definition minimal_big_endian (n : Z) : list Z :=
  rev (little_endian_bytes (Z.to_nat (Z.log2 n + 1)) n).

Fixpoint leading_ones (cs : list ascii) : nat :=
  match cs with
  | c :: cs' => if Ascii.eqb c "1"%char then S (leading_ones cs') else O
  | [] => O
  end.

Definition is_byte (b : Z) : Prop := 0 <= b < 256.

(** [bs] is a big-endian byte sequence of [n] without a leading zero
    byte. *)
Definition canonical_bytes (bs : list Z) (n : Z) : Prop :=
  Forall is_byte bs /\ big_endian_value 256 bs = n /\ hd 1 bs <> 0.

(** The base58 decoding as the specification words it. *)
Definition base58_decoding (s : string) : list Z :=
  (repeat 0 (leading_ones (chars s)) ++ minimal_big_endian (base58_number s))%list.



(* ------------------------------------------------------------------ *)
(** ** Vocabulary of the further properties                            *)
(* ------------------------------------------------------------------ *)

(** [ev] is an action of a request with this payload: a post of the
    payload, or a sleep of one of the backoff delays. *)
Definition request_event (payload : json) (ev : event) : Prop :=
  match ev with
  | Post _ p => p = payload
  | Sleep d => In d backoffs
  | _ => False
  end.

(** The length of a sleep in seconds, and the time a trace sleeps. *)
Definition seconds (d : float) : Q :=
  match float_value d with
  | Some q => q
  | None => 0%Q
  end.

Definition total_sleep (evs : list event) : Q :=
  fold_right (fun d acc => (seconds d + acc)%Q) 0%Q (sleeps evs).

(** [p] holds on the [count] integers from [start] on. *)
Fixpoint all_from (p : Z -> bool) (start : Z) (count : nat) : bool :=
  match count with
  | O => true
  | S count' => p start && all_from p (start + 1) count'
  end.

(* ------------------------------------------------------------------ *)
(** ** Sample inputs                                                   *)
(* ------------------------------------------------------------------ *)

Module Sample.

(** A runtime for the examples.  It is exact on what they use: [repr] of
    a string without quote or backslash, [int] of a string of decimal
    digits, and the year of a timestamp past the year 9999.  On floats it
    is only a stand-in. *)
Definition runtime : Runtime := {|
  float_repr := format_fixed 1;
  str_repr := fun s => "'" ++ s ++ "'";
  int_of_str := fun s => option_map Z.of_int (NilZero.int_of_string s);
  fromtimestamp_float := fun _ =>
    Raise (Exn TypeError "float timestamps are outside the examples");
  fromtimestamp_range_error := fun ts =>
    Exn ValueError
      ("year " ++ str_of_int (fst (fst (civil_from_days (ts / 86400))))
         ++ " is out of range")
|}.

Definition initial : world := {| posts := 0; trace := [] |}.

Definition client : RPCClient :=
  {| endpoints := DEFAULT_ENDPOINTS; timeout := float_of_dyadic 10 0 |}.

Definition no_endpoint_client : RPCClient :=
  {| endpoints := []; timeout := float_of_dyadic 10 0 |}.

Definition balance_result : json := JDict [("value", JInt 5000000000)].

Definition ok_response (rpc_result : json) : response :=
  {| status_code := 200;
     text := "{...}";
     json_body := Some (JDict [("jsonrpc", JStr "2.0");
                               ("result", rpc_result);
                               ("id", JInt 1)]) |}.

(** A network that refuses the first [failures] connections of the run
    and then answers every request with [rpc_result]. *)
Definition flaky (failures : nat) (rpc_result : json) : network :=
  fun n _ _ _ =>
    if (n <? failures)%nat
    then Raised (Exn NetworkError "connection refused")
    else Responded (ok_response rpc_result).

(** A network on which every server answers 429. *)
Definition rate_limited : network :=
  fun _ _ _ _ =>
    Responded {| status_code := 429;
                 text := "Too Many Requests";
                 json_body := None |}.

(** A network that answers the first request of the run with
    [rpc_result] and every later one with 429. *)
Definition answers_once (rpc_result : json) : network :=
  fun n endpoint payload timeout =>
    match n with
    | O => Responded (ok_response rpc_result)
    | S _ => rate_limited n endpoint payload timeout
    end.

(** A token-account record as the node sends it, for the account
    [pubkey]. *)
Definition token_record (pubkey : string) : json :=
  JDict [("pubkey", JStr pubkey);
         ("account",
          JDict [("data",
            JDict [("parsed",
              JDict [("info",
                JDict [("mint", JStr "So11111111111111111111111111111111111111112");
                       ("tokenAmount",
                        JDict [("amount", JStr "123456789012345");
                               ("decimals", JInt 6);
                               ("uiAmountString", JStr "123456789.012345")])])])])])].

(** A signature record with the given block time. *)
Definition signature_record (block_time : json) : json :=
  JDict [("signature", JStr "5h6xBEauJ3PK6SWCZ1PGjBvj8vDdWG3KpwATGy1ARAXF");
         ("blockTime", block_time);
         ("confirmationStatus", JStr "finalized");
         ("err", JNull)].

(** A JSON-RPC response that carries [error] and a result. *)
Definition response_with_error (error : json) : response :=
  {| status_code := 200;
     text := "{...}";
     json_body := Some (JDict [("jsonrpc", JStr "2.0");
                               ("error", error);
                               ("result", JInt 1);
                               ("id", JInt 1)]) |}.

Definition args : namespace := {|
  arg_address := "11111111111111111111111111111111";
  arg_rpc := None;
  arg_limit := 10;
  arg_timeout := float_of_dyadic 10 0;
  arg_commitment := "confirmed";
  arg_json := false;
  arg_no_tokens := false;
  arg_no_txs := false
|}.


End Sample.

(* ================================================================== *)
(** * Part II.  Properties                                             *)
(* ================================================================== *)

(** ** Strings *)

Lemma length_chars (s : string) : List.length (chars s) = String.length s.
Proof.
  unfold chars. induction s as [|c s IH]; simpl; [reflexivity | now rewrite IH].
Qed.

Lemma chars_of_list (cs : list ascii) : chars (string_of_list_ascii cs) = cs.
Proof. apply list_ascii_of_string_of_list_ascii. Qed.

Lemma find_from_range (cs : list ascii) (ch : ascii) (i : Z) :
  find_from cs ch i = -1 \/
  i <= find_from cs ch i < i + Z.of_nat (List.length cs).
Proof.
  revert i. induction cs as [|c cs IH]; intros i; simpl; [now left|].
  destruct (Ascii.eqb c ch).
  - right. lia.
  - destruct (IH (i + 1)) as [H|H]; [now left | right; lia].
Qed.

Lemma find_from_absent (cs : list ascii) (ch : ascii) (i : Z) :
  0 <= i -> (find_from cs ch i = -1 <-> ~ In ch cs).
Proof.
  revert i. induction cs as [|c cs IH]; intros i Hi; simpl.
  - tauto.
  - destruct (Ascii.eqb_spec c ch) as [->|Hne].
    + split; [lia | intros H; exfalso; apply H; now left].
    + rewrite (IH (i + 1)) by lia. split.
      * intros H [E|E]; [congruence | tauto].
      * intros H E. apply H. now right.
Qed.

Lemma find_absent (s : string) (ch : ascii) :
  find s ch = -1 <-> ~ In ch (chars s).
Proof. apply find_from_absent. lia. Qed.

(** ** Base58 *)

Lemma base58_digit_range (c : ascii) :
  in_alphabet c -> 0 <= base58_digit c < 58.
Proof.
  intros Hin. unfold base58_digit.
  destruct (find_from_range (chars BASE58_ALPHABET) c 0) as [H|H].
  - apply find_absent in H. contradiction.
  - unfold find. change (Z.of_nat (List.length (chars BASE58_ALPHABET))) with 58 in H.
    lia.
Qed.

Lemma big_endian_value_app (b : Z) (ds : list Z) (d : Z) :
  big_endian_value b (ds ++ [d]) = big_endian_value b ds * b + d.
Proof.
  induction ds as [|x ds IH]; simpl.
  - lia.
  - rewrite IH, length_app. simpl List.length.
    replace (Z.of_nat (List.length ds + 1)) with (Z.succ (Z.of_nat (List.length ds))) by lia.
    rewrite Z.pow_succ_r by lia. ring.
Qed.

(** The loop of the source computes the positional value, or stops at the
    first character outside the alphabet. *)
Lemma base58_accumulate_ok (cs : list ascii) (num : Z) :
  Forall in_alphabet cs ->
  base58_accumulate cs num =
  Ok (num * 58 ^ Z.of_nat (List.length cs)
      + big_endian_value 58 (map base58_digit cs)).
Proof.
  intros Hall. revert num.
  induction Hall as [|c cs Hc Hall IH]; intros num.
  - simpl. f_equal. lia.
  - cbn [base58_accumulate].
    pose proof (base58_digit_range c Hc) as Hr. unfold base58_digit in Hr.
    destruct (Z.eqb_spec (find BASE58_ALPHABET c) (-1)) as [E|_]; [lia|].
    rewrite IH. f_equal. cbn [map big_endian_value List.length].
    rewrite length_map.
    replace (Z.of_nat (S (List.length cs))) with (Z.succ (Z.of_nat (List.length cs))) by lia.
    rewrite Z.pow_succ_r by lia. unfold base58_digit. ring.
Qed.

Lemma base58_accumulate_bad (cs : list ascii) (num : Z) :
  ~ Forall in_alphabet cs ->
  exists msg, base58_accumulate cs num = Raise (Exn ValueError msg).
Proof.
  revert num. induction cs as [|c cs IH]; intros num Hbad.
  - exfalso. apply Hbad. constructor.
  - cbn [base58_accumulate].
    destruct (Z.eqb_spec (find BASE58_ALPHABET c) (-1)) as [E|E].
    + eexists. reflexivity.
    + apply IH. intros Hall. apply Hbad. constructor; [|exact Hall].
      unfold in_alphabet. destruct (in_dec ascii_dec c (chars BASE58_ALPHABET)) as [H|H];
        [exact H | apply find_absent in H; contradiction].
Qed.

(** ** Big-endian byte sequences *)

Lemma pow256_pos (k : nat) : 0 < 256 ^ Z.of_nat k.
Proof. apply Z.pow_pos_nonneg; lia. Qed.

Lemma pow256_succ (k : nat) : 256 ^ Z.of_nat (S k) = 256 * 256 ^ Z.of_nat k.
Proof.
  replace (Z.of_nat (S k)) with (Z.succ (Z.of_nat k)) by lia.
  apply Z.pow_succ_r. lia.
Qed.

Lemma big_endian_value_bound (bs : list Z) :
  Forall is_byte bs ->
  0 <= big_endian_value 256 bs < 256 ^ Z.of_nat (List.length bs).
Proof.
  induction 1 as [|d bs Hd _ IH]; cbn [big_endian_value List.length].
  - simpl. lia.
  - rewrite pow256_succ. pose proof (pow256_pos (List.length bs)).
    unfold is_byte in Hd. nia.
Qed.

Lemma big_endian_value_lower (d : Z) (bs : list Z) :
  Forall is_byte (d :: bs) -> d <> 0 ->
  256 ^ Z.of_nat (List.length bs) <= big_endian_value 256 (d :: bs).
Proof.
  intros Hall Hd. inversion Hall as [|? ? Hb Hbs]; subst.
  pose proof (big_endian_value_bound bs Hbs).
  pose proof (pow256_pos (List.length bs)).
  cbn [big_endian_value]. unfold is_byte in Hb. nia.
Qed.

Lemma big_endian_same_length (bs bs' : list Z) :
  Forall is_byte bs -> Forall is_byte bs' ->
  List.length bs = List.length bs' ->
  big_endian_value 256 bs = big_endian_value 256 bs' ->
  bs = bs'.
Proof.
  intros Hbs. revert bs'.
  induction Hbs as [|d bs Hd Hbs IH]; intros [|d' bs'] Hbs' Hlen Hval;
    try discriminate; [reflexivity|].
  inversion Hbs' as [|? ? Hd' Hbs'']; subst.
  injection Hlen as Hlen. cbn [big_endian_value] in Hval. rewrite <- Hlen in Hval.
  pose proof (big_endian_value_bound bs Hbs).
  pose proof (big_endian_value_bound bs' Hbs'') as Hb'. rewrite <- Hlen in Hb'.
  assert (d = d') by nia. subst d'.
  f_equal. apply IH; [assumption | assumption | lia].
Qed.

Lemma canonical_bytes_length (bs bs' : list Z) (n : Z) :
  canonical_bytes bs n -> Forall is_byte bs' -> big_endian_value 256 bs' = n ->
  (List.length bs <= List.length bs')%nat.
Proof.
  intros (Hbs & Hval & Hhd) Hbs' Hval'.
  destruct bs as [|d bs]; [simpl; lia|].
  pose proof (big_endian_value_lower d bs Hbs Hhd) as Hlow.
  pose proof (big_endian_value_bound bs' Hbs') as Hup.
  rewrite Hval in Hlow. rewrite Hval' in Hup.
  destruct (Nat.le_gt_cases (List.length (d :: bs)) (List.length bs')) as [H|H];
    [exact H|exfalso].
  assert (256 ^ Z.of_nat (List.length bs') <= 256 ^ Z.of_nat (List.length bs)).
  { apply Z.pow_le_mono_r; simpl in H; lia. }
  lia.
Qed.

(** A natural number has one big-endian byte sequence without a leading
    zero byte. *)
Lemma canonical_bytes_unique (bs bs' : list Z) (n : Z) :
  canonical_bytes bs n -> canonical_bytes bs' n -> bs = bs'.
Proof.
  intros H H'.
  pose proof (canonical_bytes_length bs bs' n H (proj1 H') (proj1 (proj2 H'))).
  pose proof (canonical_bytes_length bs' bs n H' (proj1 H) (proj1 (proj2 H))).
  destruct H as (Hb & Hv & _), H' as (Hb' & Hv' & _).
  apply big_endian_same_length; [assumption | assumption | lia | congruence].
Qed.

Lemma big_endian_digits_length (num : Z) (k : nat) :
  List.length (big_endian_digits num k) = k.
Proof. induction k; simpl; congruence. Qed.

Lemma big_endian_digits_bytes (num : Z) (k : nat) :
  Forall is_byte (big_endian_digits num k).
Proof.
  induction k; simpl; constructor; [|assumption].
  unfold is_byte. apply Z.mod_pos_bound. lia.
Qed.

Lemma big_endian_digits_value (num : Z) (k : nat) :
  big_endian_value 256 (big_endian_digits num k) = num mod 256 ^ Z.of_nat k.
Proof.
  induction k as [|k IH].
  - simpl. now rewrite Z.mod_1_r.
  - cbn [big_endian_digits big_endian_value].
    rewrite big_endian_digits_length, IH, pow256_succ.
    pose proof (pow256_pos k).
    rewrite (Z.mul_comm 256), Z.rem_mul_r by lia. ring.
Qed.

(** The byte count [(bit_length + 7) // 8] brackets the number. *)
Lemma byte_count_bounds (num : Z) :
  0 < num ->
  let k := (bit_length num + 7) / 8 in
  1 <= k /\ 256 ^ (k - 1) <= num < 256 ^ k.
Proof.
  intros Hpos k. subst k. unfold bit_length.
  rewrite Z.abs_eq by lia.
  destruct (Z.eqb_spec num 0) as [|_]; [lia|].
  pose proof (Z.log2_nonneg num) as Hl.
  destruct (Z.log2_spec num Hpos) as [Hlo Hhi].
  set (l := Z.log2 num) in *.
  pose proof (Z.mul_div_le (l + 1 + 7) 8 ltac:(lia)) as H1.
  pose proof (Z.mul_succ_div_gt (l + 1 + 7) 8 ltac:(lia)) as H2.
  set (k := (l + 1 + 7) / 8) in *.
  assert (Hk : 1 <= k) by lia.
  split; [exact Hk|].
  change 256 with (2 ^ 8). rewrite <- !Z.pow_mul_r by lia.
  split.
  - apply Z.le_trans with (2 ^ l); [|exact Hlo].
    apply Z.pow_le_mono_r; lia.
  - apply Z.lt_le_trans with (2 ^ Z.succ l); [exact Hhi|].
    apply Z.pow_le_mono_r; lia.
Qed.

Lemma to_bytes_big_canonical (num : Z) :
  0 < num ->
  exists bs, to_bytes_big num ((bit_length num + 7) / 8) = Ok bs
             /\ canonical_bytes bs num.
Proof.
  intros Hpos. destruct (byte_count_bounds num Hpos) as (Hk & Hlo & Hhi).
  set (k := (bit_length num + 7) / 8) in *.
  unfold to_bytes_big.
  destruct (Z.ltb_spec num 0) as [|_]; [lia|].
  destruct (Z.ltb_spec num (256 ^ k)) as [_|]; [|lia].
  eexists. split; [reflexivity|].
  assert (Hnat : Z.to_nat k = S (Z.to_nat (k - 1))) by lia.
  repeat split.
  - apply big_endian_digits_bytes.
  - rewrite big_endian_digits_value, Z2Nat.id by lia.
    apply Z.mod_small. lia.
  - rewrite Hnat. cbn [big_endian_digits hd].
    rewrite Z2Nat.id by lia.
    assert (H256 : 256 ^ k = 256 * 256 ^ (k - 1)).
    { replace k with (Z.succ (k - 1)) at 1 by lia. apply Z.pow_succ_r. lia. }
    assert (Hp : 0 < 256 ^ (k - 1)) by (apply Z.pow_pos_nonneg; lia).
    assert (1 <= num / 256 ^ (k - 1)) by (apply Z.div_le_lower_bound; lia).
    assert (num / 256 ^ (k - 1) < 256) by (apply Z.div_lt_upper_bound; lia).
    rewrite Z.mod_small; lia.
Qed.

Lemma little_endian_canonical (fuel : nat) (n : Z) :
  0 <= n < 2 ^ Z.of_nat fuel ->
  canonical_bytes (rev (little_endian_bytes fuel n)) n.
Proof.
  revert n. induction fuel as [|fuel IH]; intros n Hn.
  - simpl in *. assert (n = 0) by lia. subst. repeat split; [constructor | discriminate].
  - cbn [little_endian_bytes].
    destruct (Z.leb_spec n 0) as [Hz|Hpos].
    + assert (n = 0) by lia. subst. repeat split; [constructor | discriminate].
    + assert (Hq : 0 <= n / 256 < 2 ^ Z.of_nat fuel).
      { split; [apply Z.div_pos; lia|].
        apply Z.div_lt_upper_bound; [lia|].
        replace (Z.of_nat (S fuel)) with (Z.succ (Z.of_nat fuel)) in Hn by lia.
        rewrite Z.pow_succ_r in Hn by lia. lia. }
      destruct (IH _ Hq) as (Hb & Hv & Hh).
      set (l := little_endian_bytes fuel (n / 256)) in *.
      cbn [rev]. repeat split.
      * apply Forall_app. split; [exact Hb|].
        constructor; [|constructor]. unfold is_byte. apply Z.mod_pos_bound. lia.
      * rewrite big_endian_value_app, Hv.
        pose proof (Z.div_mod n 256 ltac:(lia)). lia.
      * destruct (rev l) as [|d r] eqn:Hr.
        -- simpl in Hv. simpl.
           pose proof (Z.div_mod n 256 ltac:(lia)). lia.
        -- exact Hh.
Qed.

Lemma minimal_big_endian_canonical (n : Z) :
  0 <= n -> canonical_bytes (minimal_big_endian n) n.
Proof.
  intros Hn. apply little_endian_canonical.
  pose proof (Z.log2_nonneg n).
  rewrite Z2Nat.id by lia.
  destruct (Z.eq_dec n 0) as [->|Hne]; [simpl; lia|].
  destruct (Z.log2_spec n ltac:(lia)) as [_ Hhi].
  replace (Z.log2 n + 1) with (Z.succ (Z.log2 n)) by lia. lia.
Qed.

(** No byte sequence of the same number is shorter. *)
Lemma minimal_big_endian_shortest (n : Z) (bs : list Z) :
  0 <= n -> Forall is_byte bs -> big_endian_value 256 bs = n ->
  (List.length (minimal_big_endian n) <= List.length bs)%nat.
Proof.
  intros Hn. apply canonical_bytes_length. now apply minimal_big_endian_canonical.
Qed.

(** [num.to_bytes((num.bit_length() + 7) // 8, "big")] never overflows and
    is the minimal sequence. *)
Lemma to_bytes_big_minimal (num : Z) :
  0 < num ->
  to_bytes_big num ((bit_length num + 7) / 8) = Ok (minimal_big_endian num).
Proof.
  intros Hpos. destruct (to_bytes_big_canonical num Hpos) as (bs & -> & Hc).
  f_equal. eapply canonical_bytes_unique; [exact Hc|].
  apply minimal_big_endian_canonical. lia.
Qed.

Lemma base58_number_nonneg (s : string) :
  Forall in_alphabet (chars s) -> 0 <= base58_number s.
Proof.
  unfold base58_number. induction 1 as [|c cs Hc _ IH]; simpl; [lia|].
  pose proof (base58_digit_range c Hc).
  assert (0 < 58 ^ Z.of_nat (List.length (map base58_digit cs)))
    by (apply Z.pow_pos_nonneg; lia).
  nia.
Qed.

Lemma lstrip_leading_ones (cs : list ascii) :
  (List.length (lstrip_chars (chars "1") cs) + leading_ones cs
   = List.length cs)%nat.
Proof.
  change (chars "1") with ["1"%char].
  induction cs as [|c cs IH]; [reflexivity|].
  cbn [lstrip_chars leading_ones mem_char existsb].
  rewrite orb_false_r.
  destruct (Ascii.eqb c "1"); cbn [List.length]; lia.
Qed.

Lemma pad_is_leading_ones (value : string) :
  Z.to_nat (len value - len (lstrip value "1")) = leading_ones (chars value).
Proof.
  unfold len, lstrip.
  rewrite <- !length_chars, chars_of_list.
  pose proof (lstrip_leading_ones (chars value)). lia.
Qed.

(** [base58_decode] computes the decoding of the specification on a
    non-empty string over the alphabet, and raises [ValueError] on any
    other string. *)
Lemma base58_decode_ok (s : string) :
  s <> EmptyString -> Forall in_alphabet (chars s) ->
  base58_decode s = Ok (base58_decoding s).
Proof.
  intros Hne Hall. unfold base58_decode, base58_decoding.
  destruct (Z.eqb_spec (len s) 0) as [E|_].
  { destruct s; [congruence | unfold len in E; simpl in E; lia]. }
  rewrite base58_accumulate_ok by assumption.
  cbn [Py.bind]. rewrite Z.mul_0_l, Z.add_0_l.
  fold (base58_number s).
  pose proof (base58_number_nonneg s Hall) as Hnn.
  rewrite pad_is_leading_ones.
  destruct (Z.eqb_spec (base58_number s) 0) as [E|E].
  - rewrite E. reflexivity.
  - rewrite to_bytes_big_minimal by lia. reflexivity.
Qed.

Lemma base58_decode_bad (s : string) :
  s = EmptyString \/ ~ Forall in_alphabet (chars s) ->
  exists msg, base58_decode s = Raise (Exn ValueError msg).
Proof.
  intros Hbad. unfold base58_decode.
  destruct (Z.eqb_spec (len s) 0) as [E|E]; [eexists; reflexivity|].
  destruct Hbad as [->|Hbad]; [unfold len in E; simpl in E; lia|].
  destruct (base58_accumulate_bad (chars s) 0 Hbad) as [msg ->].
  eexists. reflexivity.
Qed.

Lemma alphabet_dec (cs : list ascii) :
  {Forall in_alphabet cs} + {~ Forall in_alphabet cs}.
Proof.
  apply Forall_dec. intros c. apply in_dec, ascii_dec.
Qed.

(** C4.  [validate_address] succeeds exactly on the non-empty strings
    over the 58-symbol alphabet whose base58 decoding (the minimal
    big-endian bytes of the base-58 number, after one zero byte per
    leading '1') has 32 bytes; on every other string it raises a
    [ValueError] whose message starts with "Invalid address". *)
Theorem validate_address_spec (s : string) :
  (validate_address s = Ok tt <->
     s <> EmptyString /\ Forall in_alphabet (chars s)
     /\ List.length (base58_decoding s) = 32%nat)
  /\ (validate_address s <> Ok tt ->
      exists msg,
        validate_address s = Raise (Exn ValueError ("Invalid address" ++ msg))).
Proof.
  unfold validate_address.
  destruct (string_dec s EmptyString) as [Hs|Hs].
  { destruct (base58_decode_bad s (or_introl Hs)) as [msg ->].
    cbn. split; [split; [discriminate | tauto]|].
    intros _. eexists. reflexivity. }
  destruct (alphabet_dec (chars s)) as [Hall|Hall].
  2:{ destruct (base58_decode_bad s (or_intror Hall)) as [msg ->].
      cbn. split; [split; [discriminate | tauto]|].
      intros _. eexists. reflexivity. }
  rewrite (base58_decode_ok s Hs Hall). cbn [try_except Py.bind].
  destruct (Z.eqb_spec (Z.of_nat (List.length (base58_decoding s))) 32) as [E|E];
    cbn [negb].
  - split; [split; [intros _; repeat split; [assumption | assumption | lia] | reflexivity]|].
    congruence.
  - split; [split; [discriminate | intros (_ & _ & H); lia]|].
    intros _. eexists. reflexivity.
Qed.

Example decode_ones :
  base58_decode "11111111111111111111111111111111" = Ok (repeat 0 32%nat).
Proof. vm_compute. reflexivity. Qed.

Example validate_system_program :
  validate_address "11111111111111111111111111111111" = Ok tt.
Proof. vm_compute. reflexivity. Qed.

Example validate_token_program :
  validate_address "TokenkegQfeZyiNwAJbNbGKPFXCWuBvf9Ss623VQ5DA" = Ok tt.
Proof. vm_compute. reflexivity. Qed.

Example validate_bad_char :
  validate_address "0OIl" =
  Raise (Exn ValueError "Invalid address: invalid base58 character: 0").
Proof. vm_compute. reflexivity. Qed.

Example validate_short :
  validate_address "abc" =
  Raise (Exn ValueError
           "Invalid address length: decoded to 3 bytes, expected 32").
Proof. vm_compute. reflexivity. Qed.

Lemma validate_address_spec_witness :
  validate_address "11111111111111111111111111111111" = Ok tt.
Proof.
  apply (proj1 (validate_address_spec "11111111111111111111111111111111")).
  split; [discriminate|]. split; [|vm_compute; reflexivity].
  repeat constructor.
Defined.

(** ** The RPC client *)

Section ClientProperties.
Context {RT : Runtime}.
Variable net : network.
Variable self : RPCClient.
Variable payload : json.

Lemma attempt_once_eq (endpoint : string) (w : world) :
  attempt_once net self endpoint payload w =
  (attempt_result net self payload (posts w) endpoint,
   {| posts := S (posts w); trace := trace w ++ [Post endpoint payload] |}).
Proof.
  unfold attempt_once, io_bind, post, attempt_result, lift.
  destruct (net (posts w) endpoint payload (timeout self)); reflexivity.
Qed.

Lemma attempt_loop_cons (endpoint : string) (attempt : nat) (rest : list nat)
  (last_error : option exn) (w : world) :
  attempt_loop net self endpoint payload (attempt :: rest) last_error w =
  let w1 := {| posts := S (posts w);
               trace := trace w ++ [Post endpoint payload] |} in
  match attempt_result net self payload (posts w) endpoint with
  | Ok data => (Ok (inl data), w1)
  | Raise exc =>
      attempt_loop net self endpoint payload rest (Some exc)
        (if (attempt <? 3)%nat
         then {| posts := posts w1;
                 trace := trace w1 ++ [Sleep (nth attempt backoffs (S754_zero false))] |}
         else w1)
  end.
Proof.
  cbn [attempt_loop]. unfold try_except_Exception, io_bind at 1.
  rewrite attempt_once_eq.
  destruct (attempt_result net self payload (posts w) endpoint) as [data|exc].
  - reflexivity.
  - unfold io_bind. change (List.length backoffs) with 3%nat.
    destruct (attempt <? 3)%nat; reflexivity.
Qed.


Ltac ladder_facts :=
  unfold extends, prefix_of, count_posts, ladder, backoffs;
  cbn [flat_map app filter is_post List.length posts trace nth
       attempts_fail last_failure Nat.mul Nat.add firstn];
  rewrite <- ?app_assoc; cbn [app];
  rewrite ?Nat.add_succ_r, ?Nat.add_0_r.

(** One endpoint: the inner loop stops at the first attempt that
    succeeds, and sleeps between attempts only. *)
Lemma attempt_loop_spec (endpoint : string) (last_error : option exn)
  (w : world) :
  exists r w',
    attempt_loop net self endpoint payload
      (seq 0 (List.length backoffs + 1)) last_error w = (Ok r, w')
    /\ loop_outcome net self payload (ladder payload endpoint) last_error w w' r.
Proof.
  change (seq 0 (List.length backoffs + 1)) with [0; 1; 2; 3]%nat.
  unfold loop_outcome.
  rewrite attempt_loop_cons. cbv zeta. cbn [Nat.ltb Nat.leb posts trace].
  destruct (attempt_result net self payload (posts w) endpoint)
    as [d0|e0] eqn:E0.
  { do 2 eexists. split; [reflexivity|].
    exists [Post endpoint payload]. split; [split; [ladder_facts; reflexivity | ladder_facts; reflexivity]|].
    exists [], endpoint. ladder_facts.
    repeat split; [exact E0 | eexists; reflexivity]. }
  rewrite attempt_loop_cons. cbv zeta. cbn [Nat.ltb Nat.leb posts trace].
  destruct (attempt_result net self payload (S (posts w)) endpoint)
    as [d1|e1] eqn:E1.
  { do 2 eexists. split; [reflexivity|].
    eexists. split; [split; [ladder_facts; reflexivity | ladder_facts; reflexivity]|].
    exists [Post endpoint payload; Sleep (float_of_dyadic 1 (-1))], endpoint. ladder_facts.
    repeat split; [eexists; exact E0 | exact E1 | eexists; reflexivity]. }
  rewrite attempt_loop_cons. cbv zeta. cbn [Nat.ltb Nat.leb posts trace].
  destruct (attempt_result net self payload (S (S (posts w))) endpoint)
    as [d2|e2] eqn:E2.
  { do 2 eexists. split; [reflexivity|].
    eexists. split; [split; [ladder_facts; reflexivity | ladder_facts; reflexivity]|].
    exists [Post endpoint payload; Sleep (float_of_dyadic 1 (-1));
            Post endpoint payload; Sleep (float_of_dyadic 1 0)], endpoint. ladder_facts.
    repeat split;
      [eexists; exact E0 | eexists; exact E1 | exact E2 | eexists; reflexivity]. }
  rewrite attempt_loop_cons. cbv zeta. cbn [Nat.ltb Nat.leb posts trace].
  destruct (attempt_result net self payload (S (S (S (posts w)))) endpoint)
    as [d3|e3] eqn:E3.
  { do 2 eexists. split; [reflexivity|].
    eexists. split; [split; [ladder_facts; reflexivity | ladder_facts; reflexivity]|].
    exists [Post endpoint payload; Sleep (float_of_dyadic 1 (-1));
            Post endpoint payload; Sleep (float_of_dyadic 1 0);
            Post endpoint payload; Sleep (float_of_dyadic 1 1)], endpoint. ladder_facts.
    repeat split;
      [eexists; exact E0 | eexists; exact E1 | eexists; exact E2 | exact E3
      | exists []; reflexivity]. }
  cbn [attempt_loop]. unfold ret.
  do 2 eexists. split; [reflexivity|].
  eexists. split; [split; [ladder_facts; reflexivity | ladder_facts; reflexivity]|].
  ladder_facts. rewrite E0, E1, E2, E3.
  repeat split; try reflexivity; eexists; reflexivity.
Qed.


Lemma count_posts_app (a b : list event) :
  count_posts (a ++ b) = (count_posts a + count_posts b)%nat.
Proof. unfold count_posts. now rewrite filter_app, length_app. Qed.

Lemma attempts_fail_app (n : nat) (a b : list event) :
  attempts_fail net self n (a ++ b) <->
  attempts_fail net self n a
  /\ attempts_fail net self (n + count_posts a) b.
Proof.
  revert n. induction a as [|ev a IH]; intros n.
  - cbn. rewrite Nat.add_0_r. tauto.
  - destruct ev; cbn [app attempts_fail];
      change (count_posts (?x :: a)) with (count_posts ([x] ++ a));
      rewrite count_posts_app; cbn [count_posts filter is_post List.length].
    + rewrite IH. replace (n + (1 + count_posts a))%nat
        with (S n + count_posts a)%nat by lia. tauto.
    + rewrite IH. reflexivity.
    + rewrite IH. reflexivity.
    + rewrite IH. reflexivity.
Qed.

Lemma last_failure_app (n : nat) (a b : list event) (last_error : option exn) :
  last_failure net self n (a ++ b) last_error =
  last_failure net self (n + count_posts a) b
    (last_failure net self n a last_error).
Proof.
  revert n last_error. induction a as [|ev a IH]; intros n last_error.
  - cbn. now rewrite Nat.add_0_r.
  - destruct ev; cbn [app last_failure];
      change (count_posts (?x :: a)) with (count_posts ([x] ++ a));
      rewrite count_posts_app; cbn [count_posts filter is_post List.length];
      rewrite IH; try reflexivity.
    now replace (n + (1 + count_posts a))%nat with (S n + count_posts a)%nat by lia.
Qed.

Lemma extends_refl (w : world) : extends w w [].
Proof. split; [now rewrite app_nil_r | cbn; lia]. Qed.

Lemma extends_trans (w w1 w2 : world) (a b : list event) :
  extends w w1 a -> extends w1 w2 b -> extends w w2 (a ++ b).
Proof.
  intros [Ht Hp] [Ht' Hp']. split.
  - now rewrite Ht', Ht, app_assoc.
  - rewrite count_posts_app. lia.
Qed.

Lemma prefix_of_app_r {A : Type} (evs all more : list A) :
  prefix_of evs all -> prefix_of evs (all ++ more).
Proof. intros [rest ->]. exists (rest ++ more)%list. now rewrite app_assoc. Qed.

Lemma prefix_of_app_l {A : Type} (a evs all : list A) :
  prefix_of evs all -> prefix_of (a ++ evs) (a ++ all).
Proof. intros [rest ->]. exists rest. now rewrite app_assoc. Qed.

(** All endpoints: the outer loop goes through them in order and stops
    with the inner loop. *)
Lemma endpoint_loop_spec (remaining : list string) (last_error : option exn)
  (w : world) :
  exists r w',
    endpoint_loop net self payload remaining last_error w = (Ok r, w')
    /\ loop_outcome net self payload (schedule payload remaining) last_error w w' r.
Proof.
  revert last_error w.
  induction remaining as [|endpoint rest IH]; intros last_error w.
  - exists (inr last_error), w. split; [reflexivity|].
    exists []. split; [apply extends_refl|]. cbn. auto.
  - cbn [endpoint_loop schedule flat_map]. fold (schedule payload rest).
    unfold io_bind.
    destruct (attempt_loop_spec endpoint last_error w)
      as ([data|last1] & w1 & -> & new1 & Hext1 & H1).
    + exists (inl data), w1. split; [reflexivity|].
      exists new1. split; [exact Hext1|].
      destruct H1 as (before & e & -> & Hfail & Hres & Hpre).
      exists before, e.
      split; [reflexivity|]. split; [assumption|]. split; [assumption|].
      now apply prefix_of_app_r.
    + destruct H1 as (-> & Hfail1 & ->).
      destruct (IH (last_failure net self (posts w) (ladder payload endpoint) last_error) w1)
        as (r & w2 & -> & new2 & Hext2 & H2).
      exists r, w2. split; [reflexivity|].
      exists (ladder payload endpoint ++ new2)%list.
      split; [eapply extends_trans; eassumption|].
      destruct Hext1 as [_ Hp1].
      destruct r as [data|last2].
      * destruct H2 as (before & e & -> & Hfail & Hres & Hpre).
        exists (ladder payload endpoint ++ before)%list, e.
        split; [now rewrite app_assoc|].
        split; [apply attempts_fail_app; rewrite <- Hp1; tauto|].
        split; [|now apply prefix_of_app_l].
        rewrite count_posts_app, Nat.add_assoc, <- Hp1. exact Hres.
      * destruct H2 as (-> & Hfail & ->).
        split; [reflexivity|].
        split; [apply attempts_fail_app; rewrite <- Hp1; tauto|].
        now rewrite last_failure_app, <- Hp1.
Qed.


Lemma extends_unique (w w' : world) (a b : list event) :
  extends w w' a -> extends w w' b -> a = b.
Proof.
  intros [Ha _] [Hb _]. rewrite Ha in Hb. now apply app_inv_head in Hb.
Qed.

(** When the first [N] attempts on the first endpoint fail and the next
    one succeeds, the loops stop there, after [N] sleeps. *)
Lemma first_endpoint_recovers (N : nat) (endpoint : string)
  (rest : list string) (data : json) (last_error : option exn) (w : world) :
  (N <= 3)%nat ->
  (forall i, (i < N)%nat ->
     exists exc,
       attempt_result net self payload (posts w + i) endpoint = Raise exc) ->
  attempt_result net self payload (posts w + N) endpoint = Ok data ->
  exists w',
    endpoint_loop net self payload (endpoint :: rest) last_error w
    = (Ok (inl data), w')
    /\ extends w w' (firstn (2 * N + 1) (ladder payload endpoint)).
Proof.
  intros HN Hfail Hok.
  cbn [endpoint_loop]. unfold io_bind.
  change (seq 0 (List.length backoffs + 1)) with [0; 1; 2; 3]%nat.
  destruct N as [|[|[|[|N]]]]; [| | | |lia].
  - rewrite Nat.add_0_r in Hok.
    rewrite attempt_loop_cons, Hok. cbv zeta.
    eexists. split; [reflexivity|].
    split; [ladder_facts; reflexivity | ladder_facts; reflexivity].
  - destruct (Hfail 0%nat ltac:(lia)) as [e0 E0].
    rewrite ?Nat.add_succ_r, ?Nat.add_0_r in *.
    rewrite attempt_loop_cons, E0. cbv zeta. cbn [Nat.ltb Nat.leb posts trace].
    rewrite attempt_loop_cons. cbn [posts]. rewrite Hok. cbv zeta.
    eexists. split; [reflexivity|].
    split; [ladder_facts; reflexivity | ladder_facts; reflexivity].
  - destruct (Hfail 0%nat ltac:(lia)) as [e0 E0].
    destruct (Hfail 1%nat ltac:(lia)) as [e1 E1].
    rewrite ?Nat.add_succ_r, ?Nat.add_0_r in *.
    rewrite attempt_loop_cons, E0. cbv zeta. cbn [Nat.ltb Nat.leb posts trace].
    rewrite attempt_loop_cons. cbn [posts]. rewrite E1. cbv zeta.
    cbn [Nat.ltb Nat.leb posts trace].
    rewrite attempt_loop_cons. cbn [posts]. rewrite Hok. cbv zeta.
    eexists. split; [reflexivity|].
    split; [ladder_facts; reflexivity | ladder_facts; reflexivity].
  - destruct (Hfail 0%nat ltac:(lia)) as [e0 E0].
    destruct (Hfail 1%nat ltac:(lia)) as [e1 E1].
    destruct (Hfail 2%nat ltac:(lia)) as [e2 E2].
    rewrite ?Nat.add_succ_r, ?Nat.add_0_r in *.
    rewrite attempt_loop_cons, E0. cbv zeta. cbn [Nat.ltb Nat.leb posts trace].
    rewrite attempt_loop_cons. cbn [posts]. rewrite E1. cbv zeta.
    cbn [Nat.ltb Nat.leb posts trace].
    rewrite attempt_loop_cons. cbn [posts]. rewrite E2. cbv zeta.
    cbn [Nat.ltb Nat.leb posts trace].
    rewrite attempt_loop_cons. cbn [posts]. rewrite Hok. cbv zeta.
    eexists. split; [reflexivity|].
    split; [ladder_facts; reflexivity | ladder_facts; reflexivity].
Qed.

Lemma recovered_counts (N : nat) (endpoint : string) :
  (N <= 3)%nat ->
  count_posts (firstn (2 * N + 1) (ladder payload endpoint)) = S N
  /\ sleeps (firstn (2 * N + 1) (ladder payload endpoint)) = firstn N backoffs.
Proof.
  intros HN. destruct N as [|[|[|[|N]]]]; [| | | |lia]; split; reflexivity.
Qed.

End ClientProperties.

Section RequestProperties.
Context {RT : Runtime}.
Variable net : network.
Variable self : RPCClient.

(** [request] is its two loops, then a [return] or the final [raise]. *)
Lemma request_spec (method : string) (params : list json) (w : world) :
  let payload := request_payload method params in
  exists out w',
    loop_outcome net self payload (schedule payload (endpoints self)) None w w' out
    /\ request net self method params w =
       (match out with
        | inl data => Ok data
        | inr last_error =>
            Raise (Exn RPCError
                     ("All RPC endpoints failed: "
                        ++ str_of_last_error last_error))
        end, w').
Proof.
  intros payload. unfold request, io_bind. fold payload.
  destruct (endpoint_loop_spec net self payload (endpoints self) None w)
    as (out & w' & -> & Hout).
  exists out, w'. split; [exact Hout|]. destruct out; reflexivity.
Qed.

Lemma backoffs_values :
  map float_value backoffs = [Some (1 # 2); Some (1 # 1); Some (2 # 1)]%Q.
Proof. vm_compute. reflexivity. Qed.

Lemma count_posts_ladder (payload : json) (endpoint : string) :
  count_posts (ladder payload endpoint) = 4%nat.
Proof. reflexivity. Qed.

Lemma count_posts_schedule (payload : json) (es : list string) :
  count_posts (schedule payload es) = (4 * List.length es)%nat.
Proof.
  induction es as [|e es IH]; [reflexivity|].
  cbn [schedule flat_map]. fold (schedule payload es).
  rewrite count_posts_app, count_posts_ladder, IH. cbn [List.length]. lia.
Qed.

Lemma sleeps_app (a b : list event) :
  sleeps (a ++ b) = (sleeps a ++ sleeps b)%list.
Proof.
  induction a as [|ev a IH]; [reflexivity|].
  destruct ev; cbn [app sleeps]; now rewrite IH.
Qed.

Lemma sleeps_schedule (payload : json) (es : list string) :
  sleeps (schedule payload es) = flat_map (fun _ => backoffs) es.
Proof.
  induction es as [|e es IH]; [reflexivity|].
  cbn [schedule flat_map]. fold (schedule payload es).
  now rewrite sleeps_app, IH.
Qed.

Lemma endpoint_loop_app (payload : json) (a b : list string)
  (last_error : option exn) (w : world) :
  endpoint_loop net self payload (a ++ b) last_error w =
  match endpoint_loop net self payload a last_error w with
  | (Ok (inr last_error'), w') => endpoint_loop net self payload b last_error' w'
  | other => other
  end.
Proof.
  revert last_error w. induction a as [|e a IH]; intros last_error w.
  - reflexivity.
  - cbn [app endpoint_loop]. unfold io_bind.
    destruct (attempt_loop net self e payload _ last_error w)
      as [[[data|last1]|exc] w1]; [reflexivity | apply IH | reflexivity].
Qed.

(** When every attempt of the schedule fails, the loops run through
    it. *)
Lemma endpoint_loop_exhausts (payload : json) (es : list string)
  (last_error : option exn) (w : world) :
  attempts_fail net self (posts w) (schedule payload es) ->
  exists w',
    endpoint_loop net self payload es last_error w =
    (Ok (inr (last_failure net self (posts w) (schedule payload es) last_error)),
     w')
    /\ extends w w' (schedule payload es).
Proof.
  intros Hall.
  destruct (endpoint_loop_spec net self payload es last_error w)
    as (out & w' & Hloop & new & Hext & Hout).
  destruct out as [data|last'].
  - exfalso.
    destruct Hout as (before & endpoint & -> & _ & Hres & [rest Hpre]).
    rewrite Hpre, <- app_assoc in Hall.
    apply attempts_fail_app in Hall. destruct Hall as [_ Hall].
    cbn [app attempts_fail] in Hall. destruct Hall as [[exc E] _].
    congruence.
  - destruct Hout as (-> & _ & ->). exists w'. auto.
Qed.

(** C1.  A call of [request] does an initial part of the schedule "for
    each endpoint in order, four posts with sleeps of 0.5 s, 1 s and 2 s
    between them": the endpoints are tried in list order, at most four
    times each, and a sleep only separates two attempts on one endpoint.
    When it returns, its last action is the post of the attempt whose
    result it returns, and every attempt before failed; when it raises,
    it did the whole schedule and every attempt failed.  The first
    successful attempt on any endpoint returns at once: when every
    attempt on the endpoints before [endpoint] fails, the first [N <= 3]
    attempts on [endpoint] fail and the next succeeds, [request]
    returns that result after the ladders of the endpoints before, then
    [N + 1] posts and the first [N] backoff sleeps on [endpoint], and
    nothing after.  In particular, on the first endpoint, it returns
    after [N + 1] posts and exactly the first [N] backoff sleeps.  And
    when no attempt of the schedule succeeds, it raises. *)
Theorem request_retries_then_fails_over (method : string)
  (params : list json) (w : world) :
  let payload := request_payload method params in
  exists r w' new,
    request net self method params w = (r, w')
    /\ extends w w' new
    /\ prefix_of new (schedule payload (endpoints self))
    /\ map float_value backoffs = [Some (1 # 2); Some (1 # 1); Some (2 # 1)]%Q
    /\ (forall data, r = Ok data ->
        exists before endpoint,
          new = (before ++ [Post endpoint payload])%list
          /\ attempts_fail net self (posts w) before
          /\ attempt_result net self payload
               (posts w + count_posts before) endpoint = Ok data)
    /\ (forall exc, r = Raise exc ->
        new = schedule payload (endpoints self)
        /\ attempts_fail net self (posts w) new)
    /\ (forall failed endpoint rest N data,
        endpoints self = (failed ++ endpoint :: rest)%list ->
        attempts_fail net self (posts w) (schedule payload failed) ->
        (N <= 3)%nat ->
        (forall i, (i < N)%nat ->
           exists exc,
             attempt_result net self payload
               (posts w + 4 * List.length failed + i) endpoint
             = Raise exc) ->
        attempt_result net self payload
          (posts w + 4 * List.length failed + N) endpoint = Ok data ->
        r = Ok data
        /\ new = (schedule payload failed
                    ++ firstn (2 * N + 1) (ladder payload endpoint))%list
        /\ count_posts new = (4 * List.length failed + N + 1)%nat
        /\ sleeps new
           = (flat_map (fun _ => backoffs) failed ++ firstn N backoffs)%list)
    /\ (forall N endpoint rest data,
        endpoints self = endpoint :: rest ->
        (N <= 3)%nat ->
        (forall i, (i < N)%nat ->
           exists exc,
             attempt_result net self payload (posts w + i) endpoint
             = Raise exc) ->
        attempt_result net self payload (posts w + N) endpoint = Ok data ->
        r = Ok data
        /\ count_posts new = S N
        /\ sleeps new = firstn N backoffs)
    /\ (attempts_fail net self (posts w) (schedule payload (endpoints self)) ->
        exists exc, r = Raise exc).
Proof.
  intros payload.
  destruct (request_spec method params w) as (out & w' & Hout & Hreq).
  fold payload in Hout, Hreq.
  destruct Hout as (new & Hext & Hout).
  eexists _, w', new. split; [exact Hreq|]. split; [exact Hext|].
  split; [|split; [exact backoffs_values|split; [|split; [|split; [|split]]]]].
  - destruct out as [data|last_error].
    + destruct Hout as (_ & _ & _ & _ & _ & Hpre). exact Hpre.
    + destruct Hout as (-> & _). exists []. now rewrite app_nil_r.
  - intros data Hr. destruct out as [data'|last_error]; [|discriminate].
    injection Hr as ->.
    destruct Hout as (before & endpoint & Hnew & Hfail & Hres & _).
    exists before, endpoint. auto.
  - intros exc Hr. destruct out as [data'|last_error]; [discriminate|].
    tauto.
  - intros failed endpoint rest N data Hes Hfailed HN Hfail Hok.
    destruct (endpoint_loop_exhausts payload failed None w Hfailed)
      as (w1 & Hloop1 & Hext1).
    assert (Hp1 : posts w1 = (posts w + 4 * List.length failed)%nat).
    { destruct Hext1 as [_ Hp]. now rewrite Hp, count_posts_schedule. }
    rewrite <- Hp1 in Hfail, Hok.
    destruct (first_endpoint_recovers net self payload N endpoint rest data
                (last_failure net self (posts w) (schedule payload failed) None)
                w1 HN Hfail Hok) as (w2 & Hloop2 & Hext2).
    assert (Hreq2 : request net self method params w = (Ok data, w2)).
    { unfold request, io_bind. fold payload.
      rewrite Hes, endpoint_loop_app, Hloop1, Hloop2. reflexivity. }
    rewrite Hreq in Hreq2. injection Hreq2 as Hr Hw. subst w2.
    rewrite (extends_unique _ _ _ _ Hext (extends_trans _ _ _ _ _ Hext1 Hext2)).
    destruct (recovered_counts payload N endpoint HN) as [Hc Hs].
    split; [exact Hr|]. split; [reflexivity|]. split.
    + rewrite count_posts_app, count_posts_schedule, Hc. lia.
    + now rewrite sleeps_app, sleeps_schedule, Hs.
  - intros N endpoint rest data Hes HN Hfail Hok.
    destruct (first_endpoint_recovers net self payload N endpoint rest data
                None w HN Hfail Hok) as (w1 & Hloop & Hext1).
    assert (Hreq1 : request net self method params w = (Ok data, w1)).
    { unfold request, io_bind. fold payload. rewrite Hes, Hloop. reflexivity. }
    rewrite Hreq in Hreq1. injection Hreq1 as Hr Hw. subst w1.
    rewrite (extends_unique _ _ _ _ Hext Hext1).
    destruct (recovered_counts payload N endpoint HN) as [Hc Hs].
    auto.
  - intros Hall. destruct out as [data|last_error]; [exfalso|eexists; reflexivity].
    destruct Hout as (before & endpoint & -> & _ & Hres & [rest Hpre]).
    rewrite Hpre, <- app_assoc in Hall.
    apply attempts_fail_app in Hall. destruct Hall as [_ Hall].
    cbn [app attempts_fail] in Hall. destruct Hall as [[exc E] _].
    congruence.
Qed.

Lemma schedule_app (payload : json) (es es' : list string) :
  schedule payload (es ++ es') = (schedule payload es ++ schedule payload es')%list.
Proof. apply flat_map_app. Qed.

(** After a ladder of failures, the last failure is that of its fourth
    attempt. *)
Lemma last_failure_ladder (payload : json) (endpoint : string) (n : nat)
  (last_error : option exn) :
  attempts_fail net self n (ladder payload endpoint) ->
  exists exc,
    attempt_result net self payload (n + 3) endpoint = Raise exc
    /\ last_failure net self n (ladder payload endpoint) last_error = Some exc.
Proof.
  unfold ladder, backoffs. cbn [flat_map app attempts_fail last_failure].
  intros (_ & _ & _ & [exc E] & _).
  replace (n + 3)%nat with (S (S (S n))) by lia.
  exists exc. now rewrite E.
Qed.

(** C2.  When every attempt of the schedule fails, [request] raises
    [RPCError] after the whole schedule, and the message is
    "All RPC endpoints failed: " followed by [str] of the last failure:
    with at least one endpoint, the exception of the fourth attempt on
    the last endpoint. *)
Theorem request_all_attempts_fail (method : string) (params : list json)
  (w : world) :
  let payload := request_payload method params in
  attempts_fail net self (posts w) (schedule payload (endpoints self)) ->
  exists msg w',
    request net self method params w = (Raise (Exn RPCError msg), w')
    /\ extends w w' (schedule payload (endpoints self))
    /\ (forall firsts endpoint,
        endpoints self = (firsts ++ [endpoint])%list ->
        exists exc,
          attempt_result net self payload
            (posts w + 4 * List.length firsts + 3) endpoint = Raise exc
          /\ msg = "All RPC endpoints failed: " ++ exn_msg exc
          /\ substring_of (exn_msg exc) msg).
Proof.
  intros payload Hall.
  destruct (request_spec method params w) as (out & w' & Hout & Hreq).
  fold payload in Hout, Hreq.
  destruct Hout as (new & Hext & Hout).
  destruct out as [data|last_error].
  - exfalso.
    destruct Hout as (before & endpoint & -> & _ & Hres & [rest Hpre]).
    rewrite Hpre, <- app_assoc in Hall.
    apply attempts_fail_app in Hall. destruct Hall as [_ Hall].
    cbn [app attempts_fail] in Hall. destruct Hall as [[exc E] _].
    congruence.
  - destruct Hout as (-> & _ & ->).
    eexists _, w'. split; [exact Hreq|]. split; [exact Hext|].
    intros firsts endpoint Hes.
    rewrite Hes, schedule_app in Hall |- *.
    apply attempts_fail_app in Hall. destruct Hall as [_ Hall].
    rewrite last_failure_app, count_posts_schedule in *.
    cbn [schedule flat_map] in Hall |- *. rewrite app_nil_r in Hall |- *.
    destruct (last_failure_ladder payload endpoint _
                (last_failure net self (posts w) (schedule payload firsts) None)
                Hall) as (exc & E & ->).
    exists exc. split; [exact E|]. split; [reflexivity|].
    exists "All RPC endpoints failed: ", EmptyString.
    cbn [str_of_last_error]. clear. induction (exn_msg exc) as [|c m IH]; cbn.
    + reflexivity.
    + cbn in IH. congruence.
Qed.

(** C10.  With no endpoint at all, [request] raises [RPCError] at once:
    the world is left as it was, without a post and without a sleep. *)
Theorem request_without_endpoints (method : string) (params : list json)
  (w : world) :
  endpoints self = [] ->
  request net self method params w =
  (Raise (Exn RPCError "All RPC endpoints failed: None"), w).
Proof.
  intros Hes. unfold request, io_bind. rewrite Hes. reflexivity.
Qed.

End RequestProperties.

(** ** The decoders *)

Lemma append_nil_r (s : string) : s ++ EmptyString = s.
Proof. induction s as [|c s IH]; cbn; [reflexivity | now rewrite IH]. Qed.

Lemma append_assoc (a b c : string) : (a ++ b) ++ c = a ++ b ++ c.
Proof. induction a as [|x a IH]; cbn; [reflexivity | now rewrite IH]. Qed.

Lemma substring_of_suffix (before sub : string) :
  substring_of sub (before ++ sub).
Proof. exists before, EmptyString. now rewrite append_nil_r. Qed.

(** [str] of an [int] loses nothing: reading the digits back gives the
    number. *)
Lemma str_of_int_exact (n : Z) :
  option_map Z.of_int (NilZero.int_of_string (str_of_int n)) = Some n.
Proof.
  unfold str_of_int.
  destruct n as [|p|p].
  - reflexivity.
  - rewrite NilZero.isi.
    + cbn [option_map]. now rewrite DecimalZ.of_to.
    + cbn. intros [= H]. now apply Unsigned.to_uint_nonnil in H.
    + discriminate.
  - rewrite NilZero.isi.
    + cbn [option_map]. now rewrite DecimalZ.of_to.
    + discriminate.
    + cbn. intros [= H]. now apply Unsigned.to_uint_nonnil in H.
Qed.

Lemma for_each_map {A B : Type} (body : A -> result B) (f : A -> B)
  (xs : list A) :
  Forall (fun x => body x = Ok (f x)) xs ->
  for_each body xs = Ok (map f xs).
Proof.
  induction 1 as [|x xs Hx _ IH]; cbn; [reflexivity|].
  now rewrite Hx, IH.
Qed.

Lemma kept_filter {A B : Type} (p : A -> bool) (f : A -> B) (xs : list A) :
  kept (map (fun x => if p x then Some (f x) else None) xs)
  = map f (filter p xs).
Proof.
  induction xs as [|x xs IH]; cbn; [reflexivity|].
  destruct (p x); cbn; now rewrite IH.
Qed.

Section DecoderProperties.
Context {RT : Runtime}.

(** One record of the shape the node sends: kept when complete, skipped
    otherwise, never an exception. *)
Lemma parse_token_account_spec (item : json) :
  well_formed_token_record item ->
  parse_token_account item =
  Ok (if complete item then Some (holding_of item) else None).
Proof.
  intros (Hitem & Ha & Hd & Hp & Hi & Ht & Hdec).
  destruct item as [| | | | | |fields]; try contradiction.
  unfold parse_token_account, complete, holding_of, record_pubkey,
    record_mint, record_amount, record_decimals, record_token_amount,
    record_info in *.
  cbn [get member] in *.
  destruct (lookup "pubkey" fields) as [pubkey|];
  destruct (lookup "account" fields) as [[| | | | | |account]|];
    cbn in *; try contradiction.
  all: try (destruct (lookup "data" account) as [[| | | | | |data]|];
    cbn in *; try contradiction).
  all: try (destruct (lookup "parsed" data) as [[| | | | | |parsed]|];
    cbn in *; try contradiction).
  all: try (destruct (lookup "info" parsed) as [[| | | | | |info]|];
    cbn in *; try contradiction).
  all: try (destruct (lookup "mint" info) as [mint|];
    destruct (lookup "tokenAmount" info) as [[| | | | | |amount]|];
    cbn in *; try contradiction).
  all: try (destruct (lookup "amount" amount) as [raw|];
            destruct (lookup "decimals" amount) as [[| |n| | | |]|];
            destruct (lookup "uiAmountString" amount) as [ui|];
            cbn in *; try contradiction).
  all: repeat match goal with
              | |- context [is_none ?x] => destruct x; cbn
              | |- context [truthy ?x] => destruct (truthy x); cbn
              end; reflexivity.
Qed.


(** C5, as the code has it.  On records of the shape the node sends the
    token decoder raises nothing and returns, in input order, the
    holdings of exactly the complete records: those whose address and
    mint are truthy (present, not [null], not empty) and whose raw amount
    and decimals are present and not [null].  [amount_raw] is [str] of
    the raw amount: the string itself, or all the digits of an
    integer. *)
Theorem parse_token_accounts_keeps_complete_records (items : list json) :
  Forall well_formed_token_record items ->
  parse_token_accounts (JList items) = Ok (map holding_of (filter complete items))
  /\ (forall item s,
        record_amount item = JStr s -> amount_raw (holding_of item) = s)
  /\ (forall item n,
        record_amount item = JInt n ->
        amount_raw (holding_of item) = str_of_int n
        /\ option_map Z.of_int
             (NilZero.int_of_string (amount_raw (holding_of item))) = Some n).
Proof.
  intros Hwf. split; [|split].
  - unfold parse_token_accounts. cbn [iterate Py.bind].
    rewrite (for_each_map _
               (fun item => if complete item then Some (holding_of item) else None)).
    + cbn [Py.bind]. now rewrite kept_filter.
    + eapply Forall_impl; [|exact Hwf]. apply parse_token_account_spec.
  - intros item s H. cbn [holding_of amount_raw]. now rewrite H.
  - intros item n H. cbn [holding_of amount_raw]. rewrite H. cbn [str repr].
    split; [reflexivity | apply str_of_int_exact].
Qed.

(** One signature record of the shape the node sends. *)
Lemma signature_summary_spec (entry : json) :
  well_formed_signature_record entry ->
  signature_summary entry = Ok (summary_of entry).
Proof.
  intros [Hobj Htime].
  destruct entry as [| | | | | |fields]; try contradiction.
  unfold signature_summary, summary_of, _iso_time_from_blocktime, _err_summary.
  cbn [get member value_or_null Py.bind] in *.
  destruct (lookup "blockTime" fields) as [[| |t| | | |]|];
    cbn [value_or_null] in Htime; try contradiction; cbn [is_none Py.bind].
  - destruct (lookup "err" fields) as [[]|]; reflexivity.
  - cbn [fromtimestamp_utc_isoformat]. unfold fromtimestamp_int.
    destruct (Z.leb_spec min_timestamp t); [|lia].
    destruct (Z.leb_spec t max_timestamp); [|lia].
    cbn [andb Py.bind].
    destruct (lookup "err" fields) as [[]|]; reflexivity.
  - destruct (lookup "err" fields) as [[]|]; reflexivity.
Qed.

(** C6, as the code has it.  On signature records of the shape the node
    sends, with a block time [datetime] can hold, the decoder returns
    exactly one summary per record, in input order: the block time is
    the ISO-8601 UTC rendering of an integer [blockTime] and "N/A" for a
    missing or [null] one, and the error summary is the compact
    [json.dumps] of a non-[null] [err] and the empty string otherwise. *)
Theorem decode_signatures_one_summary_per_record (entries : list json) :
  Forall well_formed_signature_record entries ->
  decode_signatures (JList entries) = Ok (map summary_of entries).
Proof.
  intros Hwf. unfold decode_signatures. cbn [iterate Py.bind].
  apply for_each_map.
  eapply Forall_impl; [|exact Hwf]. apply signature_summary_spec.
Qed.

(** C7, as the code has it.  The balance decoder returns 0 when the
    value field is missing and [int] of the value otherwise: an integer,
    negative or not, comes back unchanged, a finite float is truncated,
    and only what [int] rejects, such as [null], raises. *)
Theorem decode_balance_is_int_of_value (fields : list (string * json)) :
  (lookup "value" fields = None -> decode_balance (JDict fields) = Ok 0)
  /\ (forall v, lookup "value" fields = Some v ->
        decode_balance (JDict fields) = int v)
  /\ (forall n, lookup "value" fields = Some (JInt n) ->
        decode_balance (JDict fields) = Ok n)
  /\ (forall s m e, lookup "value" fields = Some (JFloat (S754_finite s m e)) ->
        exists n, decode_balance (JDict fields) = Ok n)
  /\ (lookup "value" fields = Some JNull ->
        exists msg, decode_balance (JDict fields) = Raise (Exn TypeError msg)).
Proof.
  unfold decode_balance. cbn [get Py.bind].
  repeat split.
  - now intros ->.
  - now intros v ->.
  - now intros n ->.
  - intros s m e ->. cbn [int]. eexists. reflexivity.
  - intros ->. eexists. reflexivity.
Qed.

(** C3, as the code has it.  A response with status 200 and a JSON
    object for body is a failure that quotes the error when the [error]
    field is truthy (present and not [null], [false], 0 or empty), a
    "Malformed response" failure when the error is not truthy and there
    is no [result] field, and otherwise a success with the value of the
    [result] field.  A body that is not an object is a failure. *)
Theorem read_response_classification (endpoint : string) (resp : response)
  (data : json) :
  status_code resp = 200 ->
  json_body resp = Some data ->
  match data with
  | JDict fields =>
      let error := value_or_null (lookup "error" fields) in
      if truthy error then
        read_response endpoint resp =
        Raise (Exn RPCError ("RPC error from " ++ endpoint ++ ": " ++ str error))
        /\ substring_of (str error)
             ("RPC error from " ++ endpoint ++ ": " ++ str error)
      else
        match lookup "result" fields with
        | None =>
            read_response endpoint resp =
            Raise (Exn RPCError
                     ("Malformed response from " ++ endpoint ++ ": " ++ str data))
        | Some rpc_result => read_response endpoint resp = Ok rpc_result
        end
  | _ => read_response endpoint resp = Raise (no_attribute data "get")
  end.
Proof.
  intros Hstatus Hbody. unfold read_response. rewrite Hstatus, Hbody.
  cbn [Z.eqb Pos.eqb negb Py.bind].
  destruct data as [| | | | | |fields]; try reflexivity.
  cbn [get Py.bind value_or_null].
  destruct (lookup "error" fields) as [error|] eqn:Herr; cbn [value_or_null].
  - destruct (truthy error) eqn:Ht.
    + cbn [getitem]. rewrite Herr. cbn [Py.bind]. split; [reflexivity|].
      rewrite <- !append_assoc. apply substring_of_suffix.
    + cbn [contains getitem Py.bind].
      destruct (lookup "result" fields); reflexivity.
  - cbn [truthy contains getitem Py.bind].
    destruct (lookup "result" fields); reflexivity.
Qed.

End DecoderProperties.


(** ** The display of the balance, and the run *)

(** C9.  One SOL shows as "1", one and a half as "1.5", nothing as "0". *)
Theorem display_sol_examples :
  display_sol 1000000000 = Ok "1"
  /\ display_sol 1500000000 = Ok "1.5"
  /\ display_sol 0 = Ok "0".
Proof. repeat split; vm_compute; reflexivity. Qed.

Section RunProperties.
Context {RT : Runtime}.
Variable net : network.

Lemma schedule_traffic (method : string) (params : list json)
  (es : list string) :
  Forall (traffic_of method) (schedule (request_payload method params) es).
Proof.
  induction es as [|e es IH]; [constructor|].
  cbn [schedule flat_map]. apply Forall_app. split; [|exact IH].
  unfold ladder, backoffs. cbn [flat_map app].
  repeat constructor; first [left; reflexivity | right; reflexivity].
Qed.

(** A request only sleeps and posts its own method. *)
Lemma request_traffic (self : RPCClient) (method : string)
  (params : list json) (w w' : world) (r : result json) :
  request net self method params w = (r, w') ->
  exists new, extends w w' new /\ Forall (traffic_of method) new.
Proof.
  intros Hreq.
  destruct (request_spec net self method params w) as (out & w1 & Hout & Hreq1).
  rewrite Hreq in Hreq1. injection Hreq1 as _ <-.
  destruct Hout as (new & Hext & Hout).
  exists new. split; [exact Hext|].
  pose proof (schedule_traffic method params (endpoints self)) as Hall.
  destruct out as [data|last_error].
  - destruct Hout as (_ & _ & _ & _ & _ & [rest Hpre]).
    rewrite Hpre in Hall. now apply Forall_app in Hall.
  - destruct Hout as (-> & _). exact Hall.
Qed.

Lemma get_balance_traffic (client : RPCClient) (address commitment : string)
  (w w' : world) (r : result Z) :
  get_balance net client address commitment w = (r, w') ->
  exists new, extends w w' new /\ Forall (traffic_of "getBalance") new.
Proof.
  unfold get_balance, io_bind, lift.
  destruct (request net client "getBalance" _ w) as [[data|exc] w1] eqn:Hreq;
    intros [= _ <-]; eapply request_traffic; exact Hreq.
Qed.

Lemma get_tokens_traffic (client : RPCClient) (address commitment : string)
  (w w' : world) (r : result (list token_holding)) :
  get_tokens net client address commitment w = (r, w') ->
  exists new,
    extends w w' new /\ Forall (traffic_of "getTokenAccountsByOwner") new.
Proof.
  unfold get_tokens, io_bind, lift.
  destruct (request net client "getTokenAccountsByOwner" _ w)
    as [[data|exc] w1] eqn:Hreq;
    intros [= _ <-]; eapply request_traffic; exact Hreq.
Qed.

Lemma get_signatures_traffic (client : RPCClient) (address : string)
  (limit : Z) (commitment : string) (w w' : world)
  (r : result (list transaction_summary)) :
  get_signatures net client address limit commitment w = (r, w') ->
  exists new,
    extends w w' new /\ Forall (traffic_of "getSignaturesForAddress") new.
Proof.
  unfold get_signatures, io_bind, lift.
  destruct (request net client "getSignaturesForAddress" _ w)
    as [[data|exc] w1] eqn:Hreq;
    intros [= _ <-]; eapply request_traffic; exact Hreq.
Qed.

Lemma traffic_is_no_report (method : string) (ev : event) :
  traffic_of method ev -> is_post ev || is_sleep ev = true.
Proof.
  intros [H|H]; destruct ev; cbn in *; congruence.
Qed.

Lemma traffic_quiet (method : string) (evs : list event) :
  Forall (traffic_of method) evs ->
  Forall (fun ev => is_post ev || is_sleep ev = true) evs.
Proof. apply Forall_impl, traffic_is_no_report. Qed.

(** What [run] does once the queries raised. *)
Lemma run_after_failure (args : namespace) (w w1 : world) (exc : exn) :
  validate_address (arg_address args) = Ok tt ->
  run_queries net (run_client args) args w = (Raise exc, w1) ->
  run net args w = (Ok 1, with_stderr w1 ("RPC error: " ++ exn_msg exc)).
Proof.
  intros Hvalid Hq. unfold run. rewrite Hvalid.
  unfold io_bind at 1. unfold try_except_Exception. unfold io_bind at 1.
  rewrite Hq. reflexivity.
Qed.

(** C8.  When the balance query raises, [run] stops with status 1 after
    a line on the error stream: everything it did before is the traffic
    of [getBalance], so no other query was sent and nothing was sent to
    the report.  When a later query raises after the balance query has
    succeeded, [run] stops in the same way, and what it did before is
    posts and sleeps only: no report, not even a partial one. *)
Theorem run_is_all_or_nothing (args : namespace) (w : world) :
  validate_address (arg_address args) = Ok tt ->
  let client := run_client args in
  let address := arg_address args in
  let commitment := arg_commitment args in
  (forall exc w1,
     get_balance net client address commitment w = (Raise exc, w1) ->
     run net args w = (Ok 1, with_stderr w1 ("RPC error: " ++ exn_msg exc))
     /\ exists new,
          extends w w1 new /\ Forall (traffic_of "getBalance") new)
  /\ (forall lamports w1 exc w2,
        get_balance net client address commitment w = (Ok lamports, w1) ->
        arg_no_tokens args = false ->
        get_tokens net client address commitment w1 = (Raise exc, w2) ->
        run net args w = (Ok 1, with_stderr w2 ("RPC error: " ++ exn_msg exc))
        /\ exists new,
             extends w w2 new
             /\ Forall (fun ev => is_post ev || is_sleep ev = true) new)
  /\ (forall lamports w1 toks w2 exc w3,
        get_balance net client address commitment w = (Ok lamports, w1) ->
        (if arg_no_tokens args then (Ok toks, w2) = (Ok [], w1)
         else get_tokens net client address commitment w1 = (Ok toks, w2)) ->
        arg_no_txs args = false ->
        get_signatures net client address (arg_limit args) commitment w2
        = (Raise exc, w3) ->
        run net args w = (Ok 1, with_stderr w3 ("RPC error: " ++ exn_msg exc))
        /\ exists new,
             extends w w3 new
             /\ Forall (fun ev => is_post ev || is_sleep ev = true) new).
Proof.
  intros Hvalid client address commitment. split; [|split].
  - intros exc w1 Hb. split.
    + apply run_after_failure; [exact Hvalid|].
      unfold run_queries, io_bind. fold client address commitment.
      now rewrite Hb.
    + eapply get_balance_traffic. exact Hb.
  - intros lamports w1 exc w2 Hb Hflag Ht. split.
    + apply run_after_failure; [exact Hvalid|].
      unfold run_queries, io_bind. fold client address commitment.
      rewrite Hb, Hflag. cbn [negb]. now rewrite Ht.
    + destruct (get_balance_traffic _ _ _ _ _ _ Hb) as (new1 & H1 & F1).
      destruct (get_tokens_traffic _ _ _ _ _ _ Ht) as (new2 & H2 & F2).
      exists (new1 ++ new2)%list. split; [eapply extends_trans; eassumption|].
      apply Forall_app. split; eapply traffic_quiet; eassumption.
  - intros lamports w1 toks w2 exc w3 Hb Ht Hflag Hs. split.
    + apply run_after_failure; [exact Hvalid|].
      unfold run_queries, io_bind. fold client address commitment.
      rewrite Hb, Hflag. cbn [negb].
      destruct (arg_no_tokens args); cbn [negb].
      * injection Ht as -> ->. unfold ret. now rewrite Hs.
      * rewrite Ht. now rewrite Hs.
    + destruct (get_balance_traffic _ _ _ _ _ _ Hb) as (new1 & H1 & F1).
      destruct (get_signatures_traffic _ _ _ _ _ _ _ Hs) as (new3 & H3 & F3).
      destruct (arg_no_tokens args).
      * injection Ht as -> ->.
        exists (new1 ++ new3)%list. split; [eapply extends_trans; eassumption|].
        apply Forall_app. split; eapply traffic_quiet; eassumption.
      * destruct (get_tokens_traffic _ _ _ _ _ _ Ht) as (new2 & H2 & F2).
        exists (new1 ++ new2 ++ new3)%list.
        split; [eapply extends_trans; [eassumption|];
                eapply extends_trans; eassumption|].
        repeat (apply Forall_app; split); eapply traffic_quiet; eassumption.
Qed.

End RunProperties.

(* ------------------------------------------------------------------ *)
(** ** The runtime model on known values                               *)
(* ------------------------------------------------------------------ *)

(** [1 / 3] and [-7 / 10**9] are the doubles IEEE division gives. *)
Example int_true_div_rounds :
  int_true_div 1 3 = Ok (S754_finite false 6004799503160661 (-54))
  /\ int_true_div (-7) 1000000000
     = Ok (SFdiv prec emax (float_of_dyadic (-7) 0)
             (float_of_dyadic 1000000000 0)).
Proof. split; vm_compute; reflexivity. Qed.

(** Ties go to the even digit: [f"{0.625:.2f}"], [f"{0.5:.0f}"],
    [f"{1.5:.0f}"]. *)
Example format_fixed_half_even :
  format_fixed 2 (float_of_dyadic 5 (-3)) = "0.62"
  /\ format_fixed 0 (float_of_dyadic 1 (-1)) = "0"
  /\ format_fixed 0 (float_of_dyadic 3 (-1)) = "2".
Proof. repeat split; vm_compute; reflexivity. Qed.

(** The balance of the end-to-end scenario, and one lamport. *)
Example display_sol_more :
  display_sol 5000000000 = Ok "5"
  /\ display_sol 1 = Ok "0.000000001"
  /\ display_sol 123456789 = Ok "0.123456789".
Proof. repeat split; vm_compute; reflexivity. Qed.

Example isoformat_utc_dates :
  map isoformat_utc [0; 1700000000; 951782400; -1; max_timestamp; min_timestamp]
  = ["1970-01-01T00:00:00+00:00"; "2023-11-14T22:13:20+00:00";
     "2000-02-29T00:00:00+00:00"; "1969-12-31T23:59:59+00:00";
     "9999-12-31T23:59:59+00:00"; "0001-01-01T00:00:00+00:00"].
Proof. vm_compute. reflexivity. Qed.

Example dumps_compact :
  dumps (RT := Sample.runtime) "," ":"
    (JDict [("InstructionError", JList [JInt 0; JDict [("Custom", JInt 1)]])])
  = "{" ++ json_string "InstructionError" ++ ":[0,{"
        ++ json_string "Custom" ++ ":1}]}".
Proof. vm_compute. reflexivity. Qed.

Example repr_of_error :
  str (RT := Sample.runtime)
    (JDict [("code", JInt (-32005)); ("data", JList [JNull; JBool true])])
  = "{'code': -32005, 'data': [None, True]}".
Proof. vm_compute. reflexivity. Qed.

(* ------------------------------------------------------------------ *)
(** ** Concrete runs                                                   *)
(* ------------------------------------------------------------------ *)

(** The first endpoint refuses its four connections and the second one
    its first: the result comes back from the second endpoint after six
    posts and the sleeps of 0.5 s, 1 s, 2 s and 0.5 s. *)
Lemma request_retries_then_fails_over_witness :
  exists w',
    request (RT := Sample.runtime) (Sample.flaky 5 Sample.balance_result)
      Sample.client "getBalance" [] Sample.initial
    = (Ok Sample.balance_result, w')
    /\ count_posts (trace w') = 6%nat
    /\ sleeps (trace w') = (backoffs ++ firstn 1 backoffs)%list.
Proof.
  destruct (request_retries_then_fails_over (RT := Sample.runtime)
              (Sample.flaky 5 Sample.balance_result) Sample.client
              "getBalance" [] Sample.initial)
    as (r & w' & new & Hreq & [Htrace _] & _ & _ & _ & _ & Hany & _).
  destruct (Hany ["https://api.mainnet-beta.solana.com"]
              "https://solana.drpc.org" [] 1%nat Sample.balance_result)
    as (Hr & _ & Hposts & Hsleeps).
  - reflexivity.
  - cbn. repeat split; eexists; reflexivity.
  - repeat constructor.
  - intros [|i] Hi.
    + eexists. reflexivity.
    + exfalso. apply (Nat.nlt_0_r i). now apply Nat.succ_lt_mono.
  - reflexivity.
  - exists w'. rewrite Hreq, Hr, Htrace.
    split; [reflexivity|]. split; [exact Hposts | exact Hsleeps].
Defined.

Lemma request_all_attempts_fail_witness :
  exists w',
    request (RT := Sample.runtime) Sample.rate_limited Sample.client
      "getBalance" [] Sample.initial
    = (Raise (Exn RPCError
                ("All RPC endpoints failed: "
                   ++ "HTTP 429 from https://solana.drpc.org: Too Many Requests")),
       w')
    /\ count_posts (trace w') = 8%nat.
Proof.
  destruct (request_all_attempts_fail (RT := Sample.runtime)
              Sample.rate_limited Sample.client "getBalance" []
              Sample.initial)
    as (msg & w' & Hreq & [Htrace _] & Hlast).
  - cbn. repeat split; eexists; reflexivity.
  - destruct (Hlast ["https://api.mainnet-beta.solana.com"]
                "https://solana.drpc.org" eq_refl) as (exc & E & -> & _).
    vm_compute in E. injection E as <-.
    exists w'. rewrite Hreq, Htrace. split; reflexivity.
Defined.

Lemma request_without_endpoints_witness :
  request (RT := Sample.runtime) Sample.rate_limited Sample.no_endpoint_client
    "getBalance" [] Sample.initial
  = (Raise (Exn RPCError "All RPC endpoints failed: None"), Sample.initial).
Proof.
  apply (request_without_endpoints (RT := Sample.runtime)). reflexivity.
Defined.

(** A node error with content is a failure that quotes it. *)
Lemma read_response_classification_witness :
  read_response (RT := Sample.runtime) "https://solana.drpc.org"
    (Sample.response_with_error
       (JDict [("code", JInt (-32005)); ("message", JStr "Node is behind")]))
  = Raise (Exn RPCError
             ("RPC error from https://solana.drpc.org: "
                ++ "{'code': -32005, 'message': 'Node is behind'}")).
Proof.
  exact (proj1 (read_response_classification (RT := Sample.runtime)
                  "https://solana.drpc.org"
                  (Sample.response_with_error
                     (JDict [("code", JInt (-32005));
                             ("message", JStr "Node is behind")]))
                  _ eq_refl eq_refl)).
Defined.

(** C3, counterexample.  The error field below is present and not
    [null], it is the empty object, and the attempt succeeds. *)
Lemma empty_error_object_is_success :
  status_code (Sample.response_with_error (JDict [])) = 200
  /\ (exists payload,
        json_body (Sample.response_with_error (JDict [])) = Some payload
        /\ member payload "error" = Some (JDict [])
        /\ is_none (JDict []) = false)
  /\ read_response (RT := Sample.runtime) "https://solana.drpc.org"
       (Sample.response_with_error (JDict [])) = Ok (JInt 1).
Proof.
  split; [reflexivity|]. split; [|reflexivity].
  eexists. repeat split.
Qed.

(** A complete record is kept with all the digits of its amount, and a
    record without account data is skipped. *)
Lemma parse_token_accounts_keeps_complete_records_witness :
  exists holding,
    parse_token_accounts (RT := Sample.runtime)
      (JList [JDict [("pubkey", JStr "first")];
              Sample.token_record "second"]) = Ok [holding]
    /\ token_account holding = JStr "second"
    /\ amount_raw holding = "123456789012345".
Proof.
  destruct (parse_token_accounts_keeps_complete_records (RT := Sample.runtime)
              [JDict [("pubkey", JStr "first")]; Sample.token_record "second"])
    as [Hparse _].
  - repeat constructor.
  - eexists. split; [exact Hparse|]. split; reflexivity.
Defined.

(** C5, counterexample.  The record below has its four fields, and it
    is dropped because its address is the empty string. *)
Lemma empty_address_is_dropped :
  member (Sample.token_record EmptyString) "pubkey" = Some (JStr EmptyString)
  /\ descend (record_info (Sample.token_record EmptyString)) "mint" <> None
  /\ descend (record_token_amount (Sample.token_record EmptyString)) "amount"
     <> None
  /\ descend (record_token_amount (Sample.token_record EmptyString)) "decimals"
     <> None
  /\ parse_token_accounts (RT := Sample.runtime)
       (JList [Sample.token_record EmptyString]) = Ok [].
Proof. repeat split; discriminate. Qed.

(** One summary per record: a dated one and an undated one. *)
Lemma decode_signatures_one_summary_per_record_witness :
  exists dated undated,
    decode_signatures (RT := Sample.runtime)
      (JList [Sample.signature_record (JInt 1700000000);
              Sample.signature_record JNull]) = Ok [dated; undated]
    /\ block_time dated = "2023-11-14T22:13:20+00:00"
    /\ block_time undated = "N/A".
Proof.
  pose proof (decode_signatures_one_summary_per_record (RT := Sample.runtime)
                [Sample.signature_record (JInt 1700000000);
                 Sample.signature_record JNull]) as Hdecode.
  do 2 eexists. split; [apply Hdecode|split; vm_compute; reflexivity].
  repeat constructor; discriminate.
Defined.

(** C6, counterexample.  The block time below is an integer, the first
    second of the year 10000, and the decoder raises instead of returning
    a summary. *)
Lemma year_10000_is_not_summarised :
  member (Sample.signature_record (JInt 253402300800)) "blockTime"
  = Some (JInt 253402300800)
  /\ decode_signatures (RT := Sample.runtime)
       (JList [Sample.signature_record (JInt 253402300800)])
     = Raise (Exn ValueError "year 10000 is out of range").
Proof. split; vm_compute; reflexivity. Qed.

(** A negative balance comes back as it is. *)
Lemma decode_balance_is_int_of_value_witness :
  decode_balance (RT := Sample.runtime) (JDict [("value", JInt (-5))])
  = Ok (-5).
Proof.
  apply (decode_balance_is_int_of_value (RT := Sample.runtime)
           [("value", JInt (-5))]).
  reflexivity.
Defined.

(** C7, counterexample.  The value below is present and negative, and
    the decoder returns it without an error. *)
Lemma negative_balance_is_returned :
  lookup "value" [("value", JInt (-5))] = Some (JInt (-5))
  /\ -5 < 0
  /\ decode_balance (RT := Sample.runtime) (JDict [("value", JInt (-5))])
     = Ok (-5).
Proof. repeat split. Qed.

(** Every node answers 429: the run ends with status 1 after eight posts
    of [getBalance]; one answer and then 429: it ends with status 1 all
    the same. *)
Lemma run_is_all_or_nothing_witness :
  fst (run (RT := Sample.runtime) Sample.rate_limited Sample.args
         Sample.initial) = Ok 1
  /\ fst (run (RT := Sample.runtime)
            (Sample.answers_once Sample.balance_result) Sample.args
            Sample.initial) = Ok 1.
Proof.
  split.
  - destruct (get_balance (RT := Sample.runtime) Sample.rate_limited
                (run_client Sample.args) (arg_address Sample.args)
                (arg_commitment Sample.args) Sample.initial)
      as [r w1] eqn:Hb.
    assert (Hr : exists exc, r = Raise exc).
    { vm_compute in Hb. injection Hb as <- _. eexists. reflexivity. }
    destruct Hr as [exc ->].
    destruct (run_is_all_or_nothing (RT := Sample.runtime) Sample.rate_limited
                Sample.args Sample.initial) as [Hbalance _].
    + vm_compute. reflexivity.
    + now rewrite (proj1 (Hbalance exc w1 Hb)).
  - destruct (get_balance (RT := Sample.runtime)
                (Sample.answers_once Sample.balance_result)
                (run_client Sample.args) (arg_address Sample.args)
                (arg_commitment Sample.args) Sample.initial)
      as [r w1] eqn:Hb.
    assert (Hr : r = Ok 5000000000).
    { vm_compute in Hb. now injection Hb as <- _. }
    subst r.
    destruct (get_tokens (RT := Sample.runtime)
                (Sample.answers_once Sample.balance_result)
                (run_client Sample.args) (arg_address Sample.args)
                (arg_commitment Sample.args) w1)
      as [r w2] eqn:Ht.
    assert (Hr : exists exc, r = Raise exc).
    { assert (Hw : w1 = {| posts := 1; trace := trace w1 |}).
      { vm_compute in Hb. now injection Hb as <-. }
      rewrite Hw in Ht. vm_compute in Ht. injection Ht as <- _.
      eexists. reflexivity. }
    destruct Hr as [exc ->].
    destruct (run_is_all_or_nothing (RT := Sample.runtime)
                (Sample.answers_once Sample.balance_result)
                Sample.args Sample.initial) as (_ & Htokens & _).
    + vm_compute. reflexivity.
    + now rewrite (proj1 (Htokens _ w1 exc w2 Hb eq_refl Ht)).
Defined.

(* ================================================================== *)
(** * Part III.  Further properties                                    *)
(* ================================================================== *)

(** ** More on the base58 codec *)

Section Digits.
Variable b : Z.
Hypothesis base_big : 1 < b.

Lemma pow_base_pos (k : nat) : 0 < b ^ Z.of_nat k.
Proof. apply Z.pow_pos_nonneg; lia. Qed.

Lemma pow_base_succ (k : nat) : b ^ Z.of_nat (S k) = b * b ^ Z.of_nat k.
Proof.
  replace (Z.of_nat (S k)) with (Z.succ (Z.of_nat k)) by lia.
  apply Z.pow_succ_r. lia.
Qed.

Lemma digits_value_bound (ds : list Z) :
  Forall (fun d => 0 <= d < b) ds ->
  0 <= big_endian_value b ds < b ^ Z.of_nat (List.length ds).
Proof.
  induction 1 as [|d ds Hd _ IH]; cbn [big_endian_value List.length].
  - simpl. lia.
  - rewrite pow_base_succ. pose proof (pow_base_pos (List.length ds)). nia.
Qed.

Lemma digits_value_lower (d : Z) (ds : list Z) :
  Forall (fun d => 0 <= d < b) (d :: ds) -> d <> 0 ->
  b ^ Z.of_nat (List.length ds) <= big_endian_value b (d :: ds).
Proof.
  intros Hall Hd. inversion Hall as [|? ? Hb Hds]; subst.
  pose proof (digits_value_bound ds Hds).
  pose proof (pow_base_pos (List.length ds)).
  cbn [big_endian_value]. nia.
Qed.

Lemma digits_same_length (ds ds' : list Z) :
  Forall (fun d => 0 <= d < b) ds -> Forall (fun d => 0 <= d < b) ds' ->
  List.length ds = List.length ds' ->
  big_endian_value b ds = big_endian_value b ds' ->
  ds = ds'.
Proof.
  intros Hds. revert ds'.
  induction Hds as [|d ds Hd Hds IH]; intros [|d' ds'] Hds' Hlen Hval;
    try discriminate; [reflexivity|].
  inversion Hds' as [|? ? Hd' Hds'']; subst.
  injection Hlen as Hlen. cbn [big_endian_value] in Hval. rewrite <- Hlen in Hval.
  pose proof (digits_value_bound ds Hds).
  pose proof (digits_value_bound ds' Hds'') as Hb'. rewrite <- Hlen in Hb'.
  assert (d = d') by nia. subst d'.
  f_equal. apply IH; [assumption | assumption | lia].
Qed.

(** Two digit strings without a leading zero and with the same value are
    the same. *)
Lemma digits_unique (ds ds' : list Z) :
  Forall (fun d => 0 <= d < b) ds -> Forall (fun d => 0 <= d < b) ds' ->
  hd 1 ds <> 0 -> hd 1 ds' <> 0 ->
  big_endian_value b ds = big_endian_value b ds' ->
  ds = ds'.
Proof.
  intros Hds Hds' Hh Hh' Hval.
  apply digits_same_length; try assumption.
  assert (Hle : forall xs ys,
             Forall (fun d => 0 <= d < b) xs -> Forall (fun d => 0 <= d < b) ys ->
             hd 1 xs <> 0 -> big_endian_value b xs = big_endian_value b ys ->
             (List.length xs <= List.length ys)%nat).
  { intros xs ys Hxs Hys Hx Hv. destruct xs as [|x xs]; [simpl; lia|].
    pose proof (digits_value_lower x xs Hxs Hx) as Hlow.
    pose proof (digits_value_bound ys Hys) as Hup.
    rewrite Hv in Hlow.
    destruct (Nat.le_gt_cases (List.length (x :: xs)) (List.length ys)) as [H|H];
      [exact H|exfalso].
    assert (b ^ Z.of_nat (List.length ys) <= b ^ Z.of_nat (List.length xs)).
    { apply Z.pow_le_mono_r; simpl in H; lia. }
    lia. }
  apply Nat.le_antisymm; apply Hle; auto.
Qed.

Lemma value_leading_zeros (k : nat) (ds : list Z) :
  big_endian_value b (repeat 0 k ++ ds) = big_endian_value b ds.
Proof. induction k as [|k IH]; cbn; [reflexivity | now rewrite IH]. Qed.

End Digits.

Lemma find_from_nth (cs : list ascii) (ch : ascii) (i : Z) :
  find_from cs ch i <> -1 ->
  nth_error cs (Z.to_nat (find_from cs ch i - i)) = Some ch.
Proof.
  revert i. induction cs as [|c cs IH]; intros i; cbn [find_from]; [congruence|].
  destruct (Ascii.eqb_spec c ch) as [->|Hne]; intros Hfound.
  - now rewrite Z.sub_diag.
  - specialize (IH (i + 1) Hfound).
    destruct (find_from_range cs ch (i + 1)) as [H|H]; [congruence|].
    replace (Z.to_nat (find_from cs ch (i + 1) - i))
      with (S (Z.to_nat (find_from cs ch (i + 1) - (i + 1)))) by lia.
    exact IH.
Qed.

Lemma base58_digit_nth (c : ascii) :
  in_alphabet c ->
  nth_error (chars BASE58_ALPHABET) (Z.to_nat (base58_digit c)) = Some c.
Proof.
  intros Hin. unfold base58_digit, find.
  rewrite <- (Z.sub_0_r (find_from _ _ _)). apply find_from_nth.
  intros H. apply (find_from_absent _ _ 0) in H; [contradiction | lia].
Qed.

(** Two symbols of the alphabet with the same position are the same. *)
Lemma base58_digit_inj (c c' : ascii) :
  in_alphabet c -> in_alphabet c' -> base58_digit c = base58_digit c' -> c = c'.
Proof.
  intros Hc Hc' E.
  pose proof (base58_digit_nth c Hc) as H. rewrite E in H.
  rewrite (base58_digit_nth c' Hc') in H. congruence.
Qed.

Lemma base58_digit_zero (c : ascii) :
  in_alphabet c -> (base58_digit c = 0 <-> c = "1"%char).
Proof.
  intros Hc. split.
  - intros E. pose proof (base58_digit_nth c Hc) as H. rewrite E in H.
    cbn in H. congruence.
  - intros ->. reflexivity.
Qed.

Lemma leading_ones_split (cs : list ascii) :
  cs = (repeat "1"%char (leading_ones cs) ++ lstrip_chars (chars "1") cs)%list.
Proof.
  change (chars "1") with ["1"%char].
  induction cs as [|c cs IH]; [reflexivity|].
  cbn [leading_ones lstrip_chars mem_char existsb]. rewrite orb_false_r.
  destruct (Ascii.eqb_spec c "1"%char) as [->|Hne]; [|reflexivity].
  cbn [repeat app]. now rewrite <- IH.
Qed.

Lemma lstrip_ones_head (cs : list ascii) :
  hd "2"%char (lstrip_chars (chars "1") cs) <> "1"%char.
Proof.
  change (chars "1") with ["1"%char].
  induction cs as [|c cs IH]; [discriminate|].
  cbn [lstrip_chars mem_char existsb]. rewrite orb_false_r.
  destruct (Ascii.eqb_spec c "1"%char) as [->|Hne]; [exact IH | exact Hne].
Qed.

Lemma digits_of_ones (k : nat) :
  map base58_digit (repeat "1"%char k) = repeat 0 k.
Proof. induction k as [|k IH]; cbn [repeat map]; [reflexivity | now rewrite IH]. Qed.

Lemma base58_digits_range (cs : list ascii) :
  Forall in_alphabet cs ->
  Forall (fun d => 0 <= d < 58) (map base58_digit cs).
Proof.
  induction 1 as [|c cs Hc _ IH]; cbn [map]; constructor; [|exact IH].
  now apply base58_digit_range.
Qed.

(** The digits after the leading '1's: in range, without a leading zero,
    and with the value of the whole string. *)
Lemma stripped_digits (cs : list ascii) :
  Forall in_alphabet cs ->
  let ds := map base58_digit (lstrip_chars (chars "1") cs) in
  Forall (fun d => 0 <= d < 58) ds
  /\ hd 1 ds <> 0
  /\ big_endian_value 58 (map base58_digit cs) = big_endian_value 58 ds
  /\ (List.length ds + leading_ones cs = List.length cs)%nat.
Proof.
  intros Hall ds.
  pose proof (leading_ones_split cs) as Hsplit.
  assert (Hrest : Forall in_alphabet (lstrip_chars (chars "1") cs)).
  { rewrite Hsplit in Hall. now apply Forall_app in Hall. }
  split; [now apply base58_digits_range|]. split; [|split].
  - subst ds. pose proof (lstrip_ones_head cs) as Hh.
    destruct (lstrip_chars (chars "1") cs) as [|c rest]; [discriminate|].
    cbn [map hd] in *. inversion Hrest as [|? ? Hc _]; subst.
    intros E. now apply base58_digit_zero in E.
  - rewrite Hsplit at 1. rewrite map_app, digits_of_ones.
    apply value_leading_zeros.
  - subst ds. rewrite length_map. apply lstrip_leading_ones.
Qed.

Lemma base58_decode_inv (s : string) (bs : list Z) :
  base58_decode s = Ok bs ->
  s <> EmptyString /\ Forall in_alphabet (chars s) /\ bs = base58_decoding s.
Proof.
  intros Hdec.
  destruct (string_dec s EmptyString) as [Hs|Hs].
  { destruct (base58_decode_bad s (or_introl Hs)) as [msg E]. congruence. }
  destruct (alphabet_dec (chars s)) as [Hall|Hall].
  2:{ destruct (base58_decode_bad s (or_intror Hall)) as [msg E]. congruence. }
  rewrite (base58_decode_ok s Hs Hall) in Hdec. injection Hdec as <-. auto.
Qed.

(** X1.  What [base58_decode] returns is a sequence of bytes, and read
    as a big-endian number in base 256 it is the number the string
    writes in base 58. *)
Theorem base58_decode_preserves_value (s : string) (bs : list Z) :
  base58_decode s = Ok bs ->
  Forall is_byte bs
  /\ big_endian_value 256 bs
     = big_endian_value 58 (map base58_digit (chars s)).
Proof.
  intros Hdec. destruct (base58_decode_inv s bs Hdec) as (_ & Hall & ->).
  pose proof (base58_number_nonneg s Hall) as Hnn.
  destruct (minimal_big_endian_canonical _ Hnn) as (Hbytes & Hval & _).
  unfold base58_decoding. split.
  - apply Forall_app. split; [|exact Hbytes].
    apply Forall_forall. intros x Hx. apply repeat_spec in Hx. subst. unfold is_byte. lia.
  - now rewrite value_leading_zeros, Hval.
Qed.

(** X2.  The decoded bytes start with exactly as many zero bytes as the
    string has leading '1's: the zeros of the padding, then a byte that
    is not zero, or nothing. *)
Theorem base58_decode_leading_zeros (s : string) (bs : list Z) :
  base58_decode s = Ok bs ->
  exists core,
    bs = (repeat 0 (leading_ones (chars s)) ++ core)%list
    /\ hd 1 core <> 0.
Proof.
  intros Hdec. destruct (base58_decode_inv s bs Hdec) as (_ & Hall & ->).
  pose proof (base58_number_nonneg s Hall) as Hnn.
  destruct (minimal_big_endian_canonical _ Hnn) as (_ & _ & Hhd).
  eexists. split; [reflexivity | exact Hhd].
Qed.

Lemma minimal_big_endian_fits (n : Z) (k : nat) :
  0 <= n < 256 ^ Z.of_nat k ->
  (List.length (minimal_big_endian n) <= k)%nat.
Proof.
  intros Hn.
  pose proof (minimal_big_endian_shortest n (big_endian_digits n k)
                ltac:(lia) (big_endian_digits_bytes n k)) as H.
  rewrite big_endian_digits_length in H. apply H.
  rewrite big_endian_digits_value. apply Z.mod_small. exact Hn.
Qed.

Lemma pow58_le_pow256 (k : nat) : 58 ^ Z.of_nat k <= 256 ^ Z.of_nat k.
Proof. apply Z.pow_le_mono_l. lia. Qed.

Lemma base58_decoding_length (s : string) :
  Forall in_alphabet (chars s) ->
  (List.length (base58_decoding s) <= String.length s)%nat.
Proof.
  intros Hall.
  destruct (stripped_digits (chars s) Hall) as (Hr & _ & Hval & Hlen).
  set (ds := map base58_digit (lstrip_chars (chars "1") (chars s))) in *.
  pose proof (digits_value_bound 58 ltac:(lia) ds Hr) as Hb.
  pose proof (pow58_le_pow256 (List.length ds)).
  unfold base58_decoding. rewrite length_app, repeat_length.
  unfold base58_number. rewrite Hval.
  pose proof (minimal_big_endian_fits (big_endian_value 58 ds) (List.length ds)
                ltac:(lia)).
  rewrite <- length_chars. lia.
Qed.

(** X3.  The decoding is never longer than the string. *)
Theorem base58_decode_length (s : string) (bs : list Z) :
  base58_decode s = Ok bs ->
  (List.length bs <= String.length s)%nat.
Proof.
  intros Hdec. destruct (base58_decode_inv s bs Hdec) as (_ & Hall & ->).
  now apply base58_decoding_length.
Qed.

Lemma validate_address_inv (s : string) :
  validate_address s = Ok tt ->
  exists bs, base58_decode s = Ok bs /\ List.length bs = 32%nat.
Proof.
  unfold validate_address.
  destruct (base58_decode s) as [bs|exc]; cbn [try_except Py.bind].
  - destruct (Z.eqb_spec (Z.of_nat (List.length bs)) 32) as [E|E]; cbn [negb];
      [|discriminate].
    intros _. exists bs. split; [reflexivity | lia].
  - destruct (exn_class_eqb (exn_cls exc) ValueError); discriminate.
Qed.

Lemma pow256_below_pow58 (j : nat) :
  (j <= 32)%nat -> 256 ^ Z.of_nat j <= 58 ^ Z.of_nat (j + 12).
Proof.
  intros Hj.
  assert (Hall : forallb (fun j => 256 ^ Z.of_nat j <=? 58 ^ Z.of_nat (j + 12))
                   (seq 0 33) = true) by (vm_compute; reflexivity).
  rewrite forallb_forall in Hall.
  apply Z.leb_le, Hall, in_seq. lia.
Qed.

(** X4.  An address that passes [validate_address] has between 32 and
    44 characters. *)
Theorem valid_address_length (s : string) :
  validate_address s = Ok tt ->
  (32 <= String.length s <= 44)%nat.
Proof.
  intros Hvalid. destruct (validate_address_inv s Hvalid) as (bs & Hdec & Hlen).
  destruct (base58_decode_inv s bs Hdec) as (_ & Hall & ->).
  split.
  { rewrite <- Hlen. now apply base58_decoding_length. }
  destruct (stripped_digits (chars s) Hall) as (Hr & Hhd & Hval & Hsum).
  set (ds := map base58_digit (lstrip_chars (chars "1") (chars s))) in *.
  pose proof (base58_number_nonneg s Hall) as Hnn.
  destruct (minimal_big_endian_canonical _ Hnn) as (Hbytes & Hcore & _).
  pose proof (big_endian_value_bound _ Hbytes) as Hup. rewrite Hcore in Hup.
  unfold base58_decoding in Hlen. rewrite length_app, repeat_length in Hlen.
  unfold base58_number in Hup, Hlen. rewrite Hval in Hup, Hlen.
  rewrite <- length_chars.
  destruct ds as [|d ds'] eqn:Hds; [cbn in Hsum; lia|].
  pose proof (digits_value_lower 58 ltac:(lia) d ds' Hr Hhd) as Hlow.
  set (core := minimal_big_endian (big_endian_value 58 (d :: ds'))) in *.
  pose proof (pow256_below_pow58 (List.length core) ltac:(lia)) as Hpow.
  assert (Hlt : 58 ^ Z.of_nat (List.length ds')
                < 58 ^ Z.of_nat (List.length core + 12)) by lia.
  apply Z.pow_lt_mono_r_iff in Hlt; [|lia|lia].
  cbn [List.length] in Hsum. lia.
Qed.

Lemma leading_zeros_unique (k k' : nat) (core core' : list Z) :
  (repeat 0 k ++ core)%list = (repeat 0 k' ++ core')%list ->
  hd 1 core <> 0 -> hd 1 core' <> 0 ->
  k = k' /\ core = core'.
Proof.
  revert k'. induction k as [|k IH]; intros [|k'] E Hc Hc'; cbn [repeat app] in E.
  - auto.
  - subst core. cbn in Hc. congruence.
  - subst core'. cbn in Hc'. congruence.
  - injection E as E. destruct (IH k' E Hc Hc') as [-> ->]. auto.
Qed.

Lemma map_base58_digit_inj (cs cs' : list ascii) :
  Forall in_alphabet cs -> Forall in_alphabet cs' ->
  map base58_digit cs = map base58_digit cs' -> cs = cs'.
Proof.
  intros Hcs. revert cs'.
  induction Hcs as [|c cs Hc _ IH]; intros [|c' cs'] Hcs' E;
    try discriminate; [reflexivity|].
  inversion Hcs' as [|? ? Hc' Hcs'']; subst.
  cbn [map] in E. injection E as Ed Er.
  f_equal; [now apply base58_digit_inj | now apply IH].
Qed.

(** X5.  [base58_decode] is injective: two strings with the same
    decoding are the same string. *)
Theorem base58_decode_injective (s s' : string) (bs : list Z) :
  base58_decode s = Ok bs -> base58_decode s' = Ok bs -> s = s'.
Proof.
  intros Hdec Hdec'.
  destruct (base58_decode_inv s bs Hdec) as (_ & Hall & Hbs).
  destruct (base58_decode_inv s' bs Hdec') as (_ & Hall' & Hbs').
  pose proof (minimal_big_endian_canonical _ (base58_number_nonneg s Hall))
    as (_ & Hv & Hh).
  pose proof (minimal_big_endian_canonical _ (base58_number_nonneg s' Hall'))
    as (_ & Hv' & Hh').
  unfold base58_decoding in Hbs, Hbs'. rewrite Hbs in Hbs'.
  destruct (leading_zeros_unique _ _ _ _ Hbs' Hh Hh') as [Hk Hcore].
  assert (Hnum : base58_number s = base58_number s') by congruence.
  destruct (stripped_digits (chars s) Hall) as (Hr & Hd & Hval & _).
  destruct (stripped_digits (chars s') Hall') as (Hr' & Hd' & Hval' & _).
  unfold base58_number in Hnum. rewrite Hval, Hval' in Hnum.
  pose proof (digits_unique 58 ltac:(lia) _ _ Hr Hr' Hd Hd' Hnum) as Hds.
  assert (Hrest : lstrip_chars (chars "1") (chars s)
                  = lstrip_chars (chars "1") (chars s')).
  { apply map_base58_digit_inj; [| |exact Hds].
    - pose proof (leading_ones_split (chars s)) as Hs. rewrite Hs in Hall.
      now apply Forall_app in Hall.
    - pose proof (leading_ones_split (chars s')) as Hs. rewrite Hs in Hall'.
      now apply Forall_app in Hall'. }
  rewrite <- (string_of_list_ascii_of_string s),
          <- (string_of_list_ascii_of_string s').
  f_equal. fold (chars s) (chars s').
  rewrite (leading_ones_split (chars s)), (leading_ones_split (chars s')).
  now rewrite Hk, Hrest.
Qed.

(** X6.  One more leading '1' is one more leading zero byte. *)
Theorem base58_decode_prepend_one (s : string) (bs : list Z) :
  base58_decode s = Ok bs ->
  base58_decode (String "1" s) = Ok (0 :: bs).
Proof.
  intros Hdec. destruct (base58_decode_inv s bs Hdec) as (_ & Hall & ->).
  rewrite base58_decode_ok.
  - unfold base58_decoding, base58_number.
    cbn [chars list_ascii_of_string leading_ones map big_endian_value].
    fold (chars s). change (Ascii.eqb "1" "1") with true.
    change (base58_digit "1") with 0. cbn [repeat app].
    now rewrite Z.mul_0_l, Z.add_0_l.
  - discriminate.
  - constructor; [|exact Hall]. unfold in_alphabet. cbn. auto.
Qed.

(** ** More on the RPC client *)

Lemma schedule_events (payload : json) (es : list string) :
  Forall (request_event payload) (schedule payload es).
Proof.
  induction es as [|e es IH]; [constructor|].
  cbn [schedule flat_map]. apply Forall_app. split; [|exact IH].
  unfold ladder. cbn [backoffs flat_map app].
  repeat (apply Forall_cons || apply Forall_nil);
    cbn [request_event backoffs In]; auto 6.
Qed.

Lemma total_sleep_app (a b : list event) :
  (total_sleep (a ++ b) == total_sleep a + total_sleep b)%Q.
Proof.
  unfold total_sleep. rewrite sleeps_app.
  induction (sleeps a) as [|d ds IH]; cbn [app fold_right].
  - ring.
  - rewrite IH. ring.
Qed.

Lemma seconds_of_backoff (d : float) :
  In d backoffs -> (0 <= seconds d)%Q.
Proof.
  intros [<-|[<-|[<-|[]]]]; vm_compute; discriminate.
Qed.

Lemma total_sleep_nonneg (payload : json) (evs : list event) :
  Forall (request_event payload) evs -> (0 <= total_sleep evs)%Q.
Proof.
  unfold total_sleep.
  induction 1 as [|ev evs Hev _ IH]; [cbn; lra|].
  destruct ev; cbn [sleeps fold_right request_event] in *; try exact IH.
  pose proof (seconds_of_backoff secs Hev). lra.
Qed.

Lemma total_sleep_schedule (payload : json) (es : list string) :
  (total_sleep (schedule payload es)
   == (7 # 2) * inject_Z (Z.of_nat (List.length es)))%Q.
Proof.
  induction es as [|e es IH]; [reflexivity|].
  cbn [schedule flat_map]. fold (schedule payload es).
  rewrite total_sleep_app, IH.
  assert (Hladder : (total_sleep (ladder payload e) == 7 # 2)%Q)
    by (vm_compute; reflexivity).
  rewrite Hladder. cbn [List.length].
  rewrite Nat2Z.inj_succ. unfold Z.succ. rewrite inject_Z_plus. ring.
Qed.

Section MoreClientProperties.
Context {RT : Runtime}.
Variable net : network.
Variable self : RPCClient.

(** X7.  Failover.  When every attempt on the endpoints before [endpoint]
    fails, the first [N <= 3] attempts on [endpoint] fail and the next
    one succeeds, [request] returns that result: it has done the whole
    ladder of each endpoint before, then [N + 1] posts and [N] sleeps on
    [endpoint], and nothing on the endpoints after it. *)
Theorem request_fails_over (method : string) (params : list json) (w : world)
  (failed : list string) (endpoint : string) (rest : list string) (N : nat)
  (data : json) :
  let payload := request_payload method params in
  let first := (posts w + 4 * List.length failed)%nat in
  endpoints self = (failed ++ endpoint :: rest)%list ->
  attempts_fail net self (posts w) (schedule payload failed) ->
  (N <= 3)%nat ->
  (forall i, (i < N)%nat ->
     exists exc,
       attempt_result net self payload (first + i) endpoint = Raise exc) ->
  attempt_result net self payload (first + N) endpoint = Ok data ->
  exists w',
    request net self method params w = (Ok data, w')
    /\ trace w' = (trace w ++ schedule payload failed
                     ++ firstn (2 * N + 1) (ladder payload endpoint))%list
    /\ posts w' = (posts w + 4 * List.length failed + N + 1)%nat
    /\ sleeps (schedule payload failed
                 ++ firstn (2 * N + 1) (ladder payload endpoint))
       = (flat_map (fun _ => backoffs) failed ++ firstn N backoffs)%list.
Proof.
  intros payload first Hes Hfailed HN Hfail Hok.
  destruct (endpoint_loop_exhausts net self payload failed None w Hfailed)
    as (w1 & Hloop1 & Hext1).
  assert (Hp1 : posts w1 = first).
  { destruct Hext1 as [_ Hp]. rewrite Hp, count_posts_schedule. reflexivity. }
  rewrite <- Hp1 in Hfail, Hok.
  destruct (first_endpoint_recovers net self payload N endpoint rest data
              (last_failure net self (posts w) (schedule payload failed) None)
              w1 HN Hfail Hok) as (w2 & Hloop2 & Hext2).
  exists w2. split; [|split; [|split]].
  - unfold request, io_bind. fold payload.
    rewrite Hes, endpoint_loop_app, Hloop1, Hloop2. reflexivity.
  - destruct (extends_trans _ _ _ _ _ Hext1 Hext2) as [Ht _]. exact Ht.
  - destruct Hext2 as [_ Hp2]. rewrite Hp2, Hp1.
    destruct (recovered_counts payload N endpoint HN) as [-> _].
    subst first. lia.
  - rewrite sleeps_app, sleeps_schedule.
    destruct (recovered_counts payload N endpoint HN) as [_ ->]. reflexivity.
Qed.

(** X8.  [request] raises nothing but [RPCError], and only after the
    whole schedule: when it raises, every endpoint has had its four
    attempts and each of them failed. *)
Theorem request_raises_only_when_exhausted (method : string)
  (params : list json) (w w' : world) (exc : exn) :
  let payload := request_payload method params in
  request net self method params w = (Raise exc, w') ->
  exn_cls exc = RPCError
  /\ (exists reason, exn_msg exc = "All RPC endpoints failed: " ++ reason)
  /\ extends w w' (schedule payload (endpoints self))
  /\ attempts_fail net self (posts w) (schedule payload (endpoints self)).
Proof.
  intros payload Hreq.
  destruct (request_spec net self method params w) as (out & w1 & Hout & Hreq1).
  fold payload in Hout, Hreq1. rewrite Hreq in Hreq1.
  destruct out as [data|last_error]; [discriminate|].
  injection Hreq1 as -> <-.
  destruct Hout as (new & Hext & -> & Hfail & _).
  split; [reflexivity|]. split; [eexists; reflexivity|]. auto.
Qed.


(** X10.  Whatever the network does, a call of [request] sleeps for at
    most three and a half seconds per endpoint. *)
Theorem request_sleep_bound (method : string) (params : list json)
  (w w' : world) (r : result json) :
  request net self method params w = (r, w') ->
  exists new,
    extends w w' new
    /\ (total_sleep new
        <= (7 # 2) * inject_Z (Z.of_nat (List.length (endpoints self))))%Q.
Proof.
  intros Hreq.
  destruct (request_spec net self method params w) as (out & w1 & Hout & Hreq1).
  rewrite Hreq in Hreq1. injection Hreq1 as _ <-.
  set (payload := request_payload method params) in *.
  destruct Hout as (new & Hext & Hout).
  assert (Hpre : prefix_of new (schedule payload (endpoints self))).
  { destruct out as [data|last_error].
    - destruct Hout as (_ & _ & _ & _ & _ & Hpre). exact Hpre.
    - destruct Hout as (-> & _). exists []. now rewrite app_nil_r. }
  destruct Hpre as [rest Hpre].
  pose proof (total_sleep_schedule payload (endpoints self)) as Htotal.
  pose proof (schedule_events payload (endpoints self)) as Hevents.
  rewrite Hpre in Htotal, Hevents. rewrite total_sleep_app in Htotal.
  apply Forall_app in Hevents. destruct Hevents as [_ Hrest].
  pose proof (total_sleep_nonneg payload rest Hrest).
  exists new. split; [exact Hext|]. lra.
Qed.

End MoreClientProperties.

(** ** More on the transport and the decoders *)

Lemma bind_ok {A B : Type} (c : result A) (k : A -> result B) (b : B) :
  Py.bind c k = Ok b -> exists a, c = Ok a /\ k a = Ok b.
Proof. destruct c as [a|e]; cbn; [eauto | discriminate]. Qed.

Lemma for_each_app {A B : Type} (body : A -> result B) (xs ys : list A) :
  for_each body (xs ++ ys) =
  (bs <- for_each body xs ;; cs <- for_each body ys ;; Ok (bs ++ cs)%list).
Proof.
  induction xs as [|x xs IH]; cbn [app for_each Py.bind].
  - destruct (for_each body ys); reflexivity.
  - destruct (body x) as [b|e]; cbn [Py.bind]; [|reflexivity].
    rewrite IH. destruct (for_each body xs) as [bs|e]; cbn [Py.bind]; [|reflexivity].
    destruct (for_each body ys); reflexivity.
Qed.

Lemma for_each_length {A B : Type} (body : A -> result B) (xs : list A)
  (bs : list B) :
  for_each body xs = Ok bs -> List.length bs = List.length xs.
Proof.
  revert bs. induction xs as [|x xs IH]; intros bs; cbn [for_each].
  - now intros [= <-].
  - intros H. apply bind_ok in H. destruct H as (b & _ & H).
    apply bind_ok in H. destruct H as (bs' & Hbs & [= <-]).
    cbn [List.length]. f_equal. now apply IH.
Qed.

Lemma for_each_forall2 {A B : Type} (body : A -> result B) (xs : list A)
  (bs : list B) :
  for_each body xs = Ok bs -> Forall2 (fun x b => body x = Ok b) xs bs.
Proof.
  revert bs. induction xs as [|x xs IH]; intros bs; cbn [for_each].
  - intros [= <-]. constructor.
  - intros H. apply bind_ok in H. destruct H as (b & Hb & H).
    apply bind_ok in H. destruct H as (bs' & Hbs & [= <-]).
    constructor; [exact Hb | now apply IH].
Qed.

Lemma for_each_raises {A B : Type} (body : A -> result B) (before : list A)
  (x : A) (after : list A) (e : exn) :
  Forall (fun y => exists b, body y = Ok b) before ->
  body x = Raise e ->
  for_each body (before ++ x :: after) = Raise e.
Proof.
  intros Hbefore Hx. induction Hbefore as [|y ys [b Hy] _ IH]; cbn [app for_each].
  - now rewrite Hx.
  - rewrite Hy. cbn [Py.bind]. now rewrite IH.
Qed.

Lemma kept_app {A : Type} (xs ys : list (option A)) :
  kept (xs ++ ys) = (kept xs ++ kept ys)%list.
Proof.
  induction xs as [|[x|] xs IH]; cbn [app kept]; [reflexivity| |exact IH].
  now rewrite IH.
Qed.

Lemma kept_length {A : Type} (xs : list (option A)) :
  (List.length (kept xs) <= List.length xs)%nat.
Proof. induction xs as [|[x|] xs IH]; cbn [kept List.length]; lia. Qed.

Section MoreDecoderProperties.
Context {RT : Runtime}.

(** X11.  One response is a success exactly when its status is 200, its
    body a JSON object, the [error] of the object not truthy and its
    [result] present; the result is then the value of that field.  Any
    other response is a failure of class [RPCError], but for a JSON body
    that is not an object, where it is the [AttributeError] of [.get]. *)
Theorem read_response_succeeds_iff (endpoint : string) (resp : response) :
  (forall v,
     read_response endpoint resp = Ok v <->
     status_code resp = 200
     /\ exists fields,
          json_body resp = Some (JDict fields)
          /\ truthy (value_or_null (lookup "error" fields)) = false
          /\ lookup "result" fields = Some v)
  /\ (forall exc,
        read_response endpoint resp = Raise exc ->
        exn_cls exc = RPCError
        \/ exists data,
             json_body resp = Some data /\ ~ is_object data
             /\ exc = no_attribute data "get").
Proof.
  unfold read_response.
  destruct (Z.eqb_spec (status_code resp) 200) as [Hs|Hs]; cbn [negb].
  2:{ split; [intros v; split; [discriminate | tauto]|].
      intros exc [= <-]. now left. }
  destruct (json_body resp) as [data|] eqn:Hbody; cbn [Py.bind].
  2:{ split; [intros v; split; [discriminate | intros (_ & fs & [=] & _)]|].
      intros exc [= <-]. now left. }
  destruct data as [| | | | | |fields];
    cbn [get Py.bind];
    try (split; [intros v; split; [discriminate | intros (_ & fs & [=] & _)]|];
         intros exc [= <-]; right; eexists; split; [reflexivity|];
         split; [intros [] | reflexivity]).
  destruct (lookup "error" fields) as [error|] eqn:Herr; cbn [value_or_null].
  - destruct (truthy error) eqn:Ht.
    + cbn [getitem]. rewrite Herr. cbn [Py.bind].
      split; [intros v; split; [discriminate|]|].
      * intros (_ & fs & [= <-] & Hf & _). rewrite Herr in Hf. cbn in Hf. congruence.
      * intros exc [= <-]. now left.
    + cbn [contains getitem Py.bind].
      destruct (lookup "result" fields) as [res|] eqn:Hres; cbn [negb].
      * split; [intros v; split|discriminate].
        -- intros [= <-]. split; [exact Hs|]. exists fields.
           rewrite Herr. auto.
        -- intros (_ & fs & [= <-] & _ & Hr). congruence.
      * split; [intros v; split; [discriminate|]|].
        -- intros (_ & fs & [= <-] & _ & Hr). congruence.
        -- intros exc [= <-]. now left.
  - cbn [truthy contains getitem Py.bind].
    destruct (lookup "result" fields) as [res|] eqn:Hres; cbn [negb].
    + split; [intros v; split|discriminate].
      * intros [= <-]. split; [exact Hs|]. exists fields. rewrite Herr. auto.
      * intros (_ & fs & [= <-] & _ & Hr). congruence.
    + split; [intros v; split; [discriminate|]|].
      * intros (_ & fs & [= <-] & _ & Hr). congruence.
      * intros exc [= <-]. now left.
Qed.

Ltac invert_binds H :=
  repeat (apply bind_ok in H;
          let a := fresh "v" in
          let E := fresh "E" in
          destruct H as (a & E & H)).

(** What the loop of [parse_token_accounts] keeps, on any record. *)
Lemma parse_token_account_kept (item : json) (holding : token_holding) :
  parse_token_account item = Ok (Some holding) ->
  truthy (mint holding) = true
  /\ truthy (token_account holding) = true
  /\ is_none (ui_amount holding) = false.
Proof.
  unfold parse_token_account. intros H.
  invert_binds H.
  match goal with
  | H : (if negb ?c then _ else _) = _ |- _ => destruct c eqn:Hc; cbn [negb] in H
  end; [|discriminate].
  apply bind_ok in H. destruct H as (n & _ & [= <-]). cbn.
  repeat (apply andb_prop in Hc; destruct Hc as [Hc ?]).
  split; [assumption|]. split; [assumption|].
  match goal with
  | E : (if negb (is_none ?u) then _ else _) = Ok _ |- _ =>
      destruct (is_none u) eqn:Hu; cbn [negb] in E
  end.
  - match goal with E : Py.bind _ _ = Ok _ |- _ =>
      apply bind_ok in E; destruct E as (x & _ & [= <-]) end.
    reflexivity.
  - match goal with E : Ok _ = Ok _ |- _ => injection E as <- end. exact Hu.
Qed.

(** X12.  Whatever the input, when [parse_token_accounts] returns, it
    returns no more holdings than it was given records, and every holding
    has a truthy mint, a truthy token account and a UI amount that is
    not [None]. *)
Theorem parse_token_accounts_invariant (value : json)
  (holdings : list token_holding) :
  parse_token_accounts value = Ok holdings ->
  (exists items,
     iterate value = Ok items
     /\ (List.length holdings <= List.length items)%nat)
  /\ Forall (fun h => truthy (mint h) = true
                      /\ truthy (token_account h) = true
                      /\ is_none (ui_amount h) = false) holdings.
Proof.
  unfold parse_token_accounts. intros H.
  apply bind_ok in H. destruct H as (items & Hitems & H).
  apply bind_ok in H. destruct H as (kept_or_not & Hloop & [= <-]).
  split.
  - exists items. split; [exact Hitems|].
    rewrite <- (for_each_length _ _ _ Hloop). apply kept_length.
  - apply for_each_forall2 in Hloop. clear Hitems.
    induction Hloop as [|item r items rs Hitem _ IH]; [constructor|].
    destruct r as [h|]; cbn [kept]; [|exact IH].
    constructor; [|exact IH]. exact (parse_token_account_kept item h Hitem).
Qed.

(** X13.  Both list decoders work record by record: a batch decodes to
    the decoding of its first part followed by the decoding of the rest,
    and the first record that raises decides the exception. *)
Theorem decoders_distribute_over_append (xs ys : list json) :
  parse_token_accounts (JList (xs ++ ys)) =
  (hs <- parse_token_accounts (JList xs) ;;
   hs' <- parse_token_accounts (JList ys) ;;
   Ok (hs ++ hs')%list)
  /\ decode_signatures (JList (xs ++ ys)) =
     (ss <- decode_signatures (JList xs) ;;
      ss' <- decode_signatures (JList ys) ;;
      Ok (ss ++ ss')%list).
Proof.
  unfold parse_token_accounts, decode_signatures. cbn [iterate Py.bind].
  rewrite !for_each_app. split.
  - destruct (for_each parse_token_account xs) as [rs|e]; cbn [Py.bind];
      [|reflexivity].
    destruct (for_each parse_token_account ys) as [rs'|e]; cbn [Py.bind];
      [|reflexivity].
    now rewrite kept_app.
  - reflexivity.
Qed.

(** X14.  A token record whose [account] is present but is not an
    object, or whose account's [data] is present but is not an object
    (the node sends a list there when it cannot parse the account),
    makes the whole batch raise the [AttributeError] of [.get], whatever
    the records after it and however good the records before it. *)
Theorem parse_token_accounts_bad_level (before after : list json)
  (fields : list (string * json)) (level : json) :
  Forall (fun item => exists r, parse_token_account item = Ok r) before ->
  ~ is_object level ->
  lookup "account" fields = Some level
  \/ (exists account,
        lookup "account" fields = Some (JDict account)
        /\ lookup "data" account = Some level) ->
  parse_token_accounts (JList (before ++ JDict fields :: after))
  = Raise (no_attribute level "get").
Proof.
  intros Hbefore Hlevel Hwhere.
  unfold parse_token_accounts. cbn [iterate Py.bind].
  rewrite (for_each_raises _ before (JDict fields) after
             (no_attribute level "get") Hbefore); [reflexivity|].
  unfold parse_token_account. cbn [get Py.bind].
  destruct Hwhere as [Ha|(account & Ha & Hd)]; rewrite Ha; cbn [get Py.bind].
  - destruct level; try reflexivity. now destruct Hlevel.
  - rewrite Hd. destruct level; try reflexivity. now destruct Hlevel.
Qed.

End MoreDecoderProperties.

Lemma append_nonempty_r (a b : string) : b <> EmptyString -> a ++ b <> EmptyString.
Proof. destruct a; cbn; [auto | discriminate]. Qed.

Lemma str_of_int_nonempty (n : Z) : str_of_int n <> EmptyString.
Proof.
  unfold str_of_int. destruct (Z.to_int n) as [d|d]; cbn; [|discriminate].
  destruct d; discriminate.
Qed.

Section SignatureProperties.
Context {RT : Runtime}.

Lemma dumps_nonempty (item_sep key_sep : string) (v : json) :
  (forall f, float_repr f <> EmptyString) ->
  dumps item_sep key_sep v <> EmptyString.
Proof.
  intros Hrepr. destruct v as [|[]|n|f|s|items|fields]; cbn [dumps];
    try discriminate.
  - apply str_of_int_nonempty.
  - destruct f as [| [] | |]; try discriminate; apply Hrepr.
Qed.

(** One record of [get_signatures], whatever it is. *)
Lemma signature_summary_fields (entry : json) (s : transaction_summary) :
  (forall f, float_repr f <> EmptyString) ->
  signature_summary entry = Ok s ->
  is_object entry
  /\ signature s = value_or_null (member entry "signature")
  /\ confirmation_status s = value_or_null (member entry "confirmationStatus")
  /\ (is_none (value_or_null (member entry "blockTime")) = true ->
      block_time s = "N/A")
  /\ (err s = EmptyString <->
      is_none (value_or_null (member entry "err")) = true).
Proof.
  intros Hrepr. unfold signature_summary.
  destruct entry as [| | | | | |fields]; try discriminate.
  cbn [get Py.bind member]. intros H.
  apply bind_ok in H. destruct H as (time & Htime & H).
  apply bind_ok in H. destruct H as (e & He & [= <-]). cbn.
  split; [exact I|]. split; [reflexivity|]. split; [reflexivity|]. split.
  - unfold _iso_time_from_blocktime in Htime.
    fold (value_or_null (lookup "blockTime" fields)) in Htime.
    intros Hnone. rewrite Hnone in Htime. congruence.
  - unfold _err_summary in He.
    fold (value_or_null (lookup "err" fields)) in He.
    destruct (is_none (value_or_null (lookup "err" fields))) eqn:Hnone.
    + injection He as <-. tauto.
    + cbn in He. injection He as <-. split; [|discriminate].
      intros E. now apply dumps_nonempty in E.
Qed.

(** X15.  Whatever the input, when the signature decoder returns, it
    returns one summary for each record, in order; the signature and the
    confirmation status are those of the record ([None] when missing),
    a missing or [null] block time reads "N/A", and the error summary is
    empty exactly when the record has no error or a [null] one.  The
    precondition is that the runtime never renders a float as the empty
    string. *)
Theorem decode_signatures_record_by_record (value : json)
  (summaries : list transaction_summary) :
  (forall f, float_repr f <> EmptyString) ->
  decode_signatures value = Ok summaries ->
  exists entries,
    iterate value = Ok entries
    /\ Forall2
         (fun entry s =>
            is_object entry
            /\ signature s = value_or_null (member entry "signature")
            /\ confirmation_status s
               = value_or_null (member entry "confirmationStatus")
            /\ (is_none (value_or_null (member entry "blockTime")) = true ->
                block_time s = "N/A")
            /\ (err s = EmptyString <->
                is_none (value_or_null (member entry "err")) = true))
         entries summaries.
Proof.
  intros Hrepr. unfold decode_signatures. intros H.
  apply bind_ok in H. destruct H as (entries & Hentries & Hloop).
  exists entries. split; [exact Hentries|].
  apply for_each_forall2 in Hloop.
  clear Hentries.
  induction Hloop as [|entry s entries ss Hs _ IH]; [constructor|].
  constructor; [|exact IH]. now apply signature_summary_fields.
Qed.

End SignatureProperties.


Section MoreRunProperties.
Context {RT : Runtime}.
Variable net : network.

(** X16.  Decoding is outside the retry loop: when the first attempt
    of the balance query is a success whose result the decoder rejects,
    [get_balance] raises the exception of the decoder after that single
    post, without a retry and without a try on the next endpoint. *)
Theorem get_balance_does_not_retry_decoding (client : RPCClient)
  (address commitment : string) (w : world) (endpoint : string)
  (rest : list string) (data : json) (exc : exn) :
  let payload :=
    request_payload "getBalance"
      [JStr address; JDict [("commitment", JStr commitment)]] in
  endpoints client = endpoint :: rest ->
  attempt_result net client payload (posts w) endpoint = Ok data ->
  decode_balance data = Raise exc ->
  get_balance net client address commitment w =
  (Raise exc,
   {| posts := S (posts w);
      trace := (trace w ++ [Post endpoint payload])%list |}).
Proof.
  intros payload Hes Hok Hdecode.
  unfold get_balance, request, io_bind. fold payload. rewrite Hes.
  cbn [endpoint_loop]. unfold io_bind.
  change (seq 0 (List.length backoffs + 1)) with [0; 1; 2; 3]%nat.
  rewrite attempt_loop_cons, Hok. cbv zeta. unfold ret, lift.
  now rewrite Hdecode.
Qed.





End MoreRunProperties.

(** ** More on the display of the balance *)

Lemma chars_app (a b : string) : chars (a ++ b) = (chars a ++ chars b)%list.
Proof.
  unfold chars. induction a as [|c a IH]; cbn; [reflexivity | now rewrite IH].
Qed.

Lemma uint_chars_digits (d : Decimal.uint) :
  Forall (fun c => In c (chars "0123456789")) (chars (NilEmpty.string_of_uint d)).
Proof.
  induction d; cbn [NilEmpty.string_of_uint chars list_ascii_of_string];
    constructor; try assumption; cbn; auto 12.
Qed.

(** The decimal digits of a natural number: digits only, at least one. *)
Lemma str_of_int_digits (n : Z) :
  0 <= n ->
  Forall (fun c => In c (chars "0123456789")) (chars (str_of_int n))
  /\ chars (str_of_int n) <> [].
Proof.
  intros Hn. unfold str_of_int.
  destruct n as [|p|p]; [| |lia].
  - split; [repeat constructor | discriminate].
  - cbn [Z.to_int NilZero.string_of_int].
    pose proof (Unsigned.to_uint_nonnil p) as Hnil.
    destruct (Pos.to_uint p) as [|d|d|d|d|d|d|d|d|d|d];
      [congruence|..];
      (split; [match goal with
               | |- context [NilZero.string_of_uint ?u] =>
                   exact (uint_chars_digits u)
               end
              | discriminate]).
Qed.

Lemma zero_padded_digits (width : nat) (n : Z) :
  0 <= n ->
  Forall (fun c => In c (chars "0123456789")) (chars (zero_padded width n))
  /\ chars (zero_padded width n) <> [].
Proof.
  intros Hn. destruct (str_of_int_digits n Hn) as [Hd Hne].
  unfold zero_padded. rewrite chars_app, chars_of_list. split.
  - apply Forall_app. split; [|exact Hd].
    apply Forall_forall. intros c Hc. apply repeat_spec in Hc. subst. cbn. auto.
  - intros E. apply app_eq_nil in E. tauto.
Qed.

Lemma lstrip_chars_stop (set : list ascii) (xs : list ascii) (y : ascii)
  (ys : list ascii) :
  mem_char y set = false ->
  lstrip_chars set (xs ++ y :: ys) = (lstrip_chars set xs ++ y :: ys)%list.
Proof.
  intros Hy. induction xs as [|x xs IH]; cbn [app lstrip_chars].
  - now rewrite Hy.
  - destruct (mem_char x set); [exact IH | reflexivity].
Qed.

Lemma lstrip_chars_head (set : list ascii) (xs : list ascii) :
  match lstrip_chars set xs with
  | [] => True
  | c :: _ => mem_char c set = false /\ In c xs
  end.
Proof.
  induction xs as [|x xs IH]; cbn [lstrip_chars]; [exact I|].
  destruct (mem_char x set) eqn:Hx.
  - destruct (lstrip_chars set xs); [exact I|]. cbn. tauto.
  - cbn. auto.
Qed.

Lemma last_rev_cons {A : Type} (x : A) (xs : list A) (d : A) :
  last (rev (x :: xs)) d = x.
Proof. cbn [rev]. apply last_last. Qed.

Lemma digit_char_facts (c : ascii) :
  In c (chars "0123456789") ->
  c <> "."%char /\ mem_char c ["."%char] = false.
Proof.
  intros H. cbn in H.
  repeat (destruct H as [<-|H]; [split; [discriminate | reflexivity]|]).
  contradiction.
Qed.

(** Stripping the zeros and then the point from the right of a decimal
    literal [pre I . F]. *)
Lemma strip_decimal (pre I F : list ascii) :
  Forall (fun c => c <> "."%char) pre ->
  I <> [] ->
  Forall (fun c => In c (chars "0123456789")) I ->
  Forall (fun c => In c (chars "0123456789")) F ->
  let text := (pre ++ I ++ "."%char :: F)%list in
  let stripped :=
    rev (lstrip_chars ["."%char]
           (rev (rev (lstrip_chars ["0"%char] (rev text))))) in
  stripped <> []
  /\ last stripped "x"%char <> "."%char
  /\ (In "."%char stripped -> last stripped "x"%char <> "0"%char).
Proof.
  intros Hpre HI HdI HdF text stripped. subst text stripped.
  rewrite rev_involutive.
  replace (rev (pre ++ I ++ "."%char :: F))
    with (rev F ++ "."%char :: rev (pre ++ I))%list.
  2:{ symmetry. rewrite (app_assoc pre I), rev_app_distr. cbn [rev].
      rewrite <- app_assoc. reflexivity. }
  rewrite lstrip_chars_stop by reflexivity.
  pose proof (lstrip_chars_head ["0"%char] (rev F)) as Hhead.
  destruct (lstrip_chars ["0"%char] (rev F)) as [|c z].
  - cbn [app lstrip_chars mem_char existsb Ascii.eqb Bool.eqb orb].
    destruct (exists_last HI) as (I' & d & ->).
    assert (Hd : In d (chars "0123456789")).
    { apply Forall_app in HdI. destruct HdI as [_ Hd]. now inversion Hd. }
    destruct (digit_char_facts d Hd) as [Hne Hmem].
    rewrite app_assoc, rev_app_distr. cbn [rev app lstrip_chars].
    rewrite Hmem.
    change (d :: rev (pre ++ I')) with (rev [d] ++ rev (pre ++ I'))%list.
    rewrite <- rev_app_distr, rev_involutive, <- app_assoc.
    split; [intros E; apply app_eq_nil in E; destruct E as [_ E];
            apply app_eq_nil in E; destruct E; discriminate|].
    rewrite app_assoc, last_last. split; [exact Hne|].
    intros Hin. exfalso.
    rewrite <- app_assoc in Hin.
    apply in_app_or in Hin. destruct Hin as [Hin|Hin].
    + rewrite Forall_forall in Hpre. now apply (Hpre _ Hin).
    + rewrite Forall_forall in HdI. apply HdI in Hin.
      now destruct (digit_char_facts _ Hin).
  - destruct Hhead as [Hzero Hin].
    assert (Hd : In c (chars "0123456789")).
    { rewrite Forall_forall in HdF. apply HdF. now apply in_rev. }
    destruct (digit_char_facts c Hd) as [Hne Hmem].
    cbn [app lstrip_chars]. rewrite Hmem.
    change (c :: (z ++ "."%char :: rev (pre ++ I))%list)
      with (c :: (z ++ "."%char :: rev (pre ++ I)))%list.
    rewrite last_rev_cons.
    split; [cbn [rev]; intros E; apply app_eq_nil in E; destruct E; discriminate|].
    split; [exact Hne|]. intros _ E. subst c. discriminate.
Qed.

Lemma round_half_even_nonneg (num den : Z) :
  0 <= num -> 0 < den -> 0 <= round_half_even num den.
Proof.
  intros Hn Hd. unfold round_half_even.
  pose proof (Z.div_pos num den Hn Hd).
  destruct (2 * (num mod den) ?= den); [destruct (Z.even _)| |]; lia.
Qed.

(** The shape of [format(x, ".9f")] on a finite [x]: an optional minus
    sign, digits, a point, digits. *)
Lemma format_fixed_9_shape (x : float) :
  match x with
  | S754_nan | S754_infinity _ => True
  | _ =>
      exists pre I F,
        chars (format_fixed 9 x) = (pre ++ I ++ "."%char :: F)%list
        /\ Forall (fun c => c <> "."%char) pre
        /\ I <> []
        /\ Forall (fun c => In c (chars "0123456789")) I
        /\ Forall (fun c => In c (chars "0123456789")) F
  end.
Proof.
  assert (Hshape : forall (s : bool) (scaled : Z), 0 <= scaled ->
    exists pre I F,
      chars ((if s then "-" else EmptyString)
               ++ str_of_int (scaled / 10 ^ Z.of_nat 9)
               ++ "." ++ zero_padded 9 (scaled mod 10 ^ Z.of_nat 9))
      = (pre ++ I ++ "."%char :: F)%list
      /\ Forall (fun c => c <> "."%char) pre
      /\ I <> []
      /\ Forall (fun c => In c (chars "0123456789")) I
      /\ Forall (fun c => In c (chars "0123456789")) F).
  { intros s scaled Hs.
    assert (Hunit : 0 < 10 ^ Z.of_nat 9) by (apply Z.pow_pos_nonneg; lia).
    destruct (str_of_int_digits (scaled / 10 ^ Z.of_nat 9)
                (Z.div_pos _ _ Hs Hunit)) as [HdI HI].
    destruct (zero_padded_digits 9 (scaled mod 10 ^ Z.of_nat 9)
                ltac:(apply Z.mod_pos_bound; lia)) as [HdF _].
    exists (chars (if s then "-" else EmptyString)),
           (chars (str_of_int (scaled / 10 ^ Z.of_nat 9))),
           (chars (zero_padded 9 (scaled mod 10 ^ Z.of_nat 9))).
    split; [now rewrite !chars_app|].
    split; [destruct s; repeat constructor; discriminate|]. auto. }
  destruct x as [s|s| |s m e]; try exact I.
  - apply (Hshape s 0). lia.
  - apply (Hshape s). destruct (0 <=? e) eqn:He.
    + apply Z.leb_le in He.
      assert (0 < 2 ^ e) by (apply Z.pow_pos_nonneg; lia).
      assert (0 < 10 ^ Z.of_nat 9) by (apply Z.pow_pos_nonneg; lia). nia.
    + apply Z.leb_gt in He. apply round_half_even_nonneg.
      * assert (0 < 10 ^ Z.of_nat 9) by (apply Z.pow_pos_nonneg; lia). nia.
      * apply Z.pow_pos_nonneg; lia.
Qed.

(** X19.  Whatever the float, [format_sol] returns a non-empty text that
    does not end with the decimal point, and that does not end with a
    zero when it has a decimal point: the zeros at the end of the
    fraction are all gone, and the point with them when nothing is left
    of the fraction. *)
Theorem format_sol_strips_fraction (sol : float) :
  let text := chars (format_sol sol) in
  text <> []
  /\ last text "x"%char <> "."%char
  /\ (In "."%char text -> last text "x"%char <> "0"%char).
Proof.
  pose proof (format_fixed_9_shape sol) as Hshape.
  unfold format_sol.
  destruct sol as [s|s| |s m e].
  2:{ destruct s; cbn; repeat split; try discriminate;
        intros H; repeat (destruct H as [H|H]; [discriminate|]); contradiction. }
  2:{ cbn; repeat split; try discriminate;
        intros H; repeat (destruct H as [H|H]; [discriminate|]); contradiction. }
  all: destruct Hshape as (pre & I & F & Htext & Hpre & HI & HdI & HdF).
  all: cbv zeta.
  all: match goal with
       | |- context [mem_char _ (chars ?t)] => set (text := t) in *
       end.
  all: assert (Hmem : mem_char "."%char (chars text) = true)
         by (rewrite Htext; unfold mem_char; rewrite !existsb_app;
             cbn [existsb Ascii.eqb Bool.eqb]; now rewrite !orb_true_r).
  all: rewrite Hmem; unfold rstrip; rewrite !chars_of_list, Htext.
  all: change (chars ".") with ["."%char]; change (chars "0") with ["0"%char].
  all: exact (strip_decimal pre I F Hpre HI HdI HdF).
Qed.

(** ** More on the block time *)

Lemma all_from_spec (p : Z -> bool) (start : Z) (count : nat) :
  all_from p start count = true ->
  forall z, start <= z < start + Z.of_nat count -> p z = true.
Proof.
  revert start. induction count as [|count IH]; intros start Hall z Hz.
  - lia.
  - cbn [all_from] in Hall. apply andb_prop in Hall. destruct Hall as [Hp Hall].
    destruct (Z.eq_dec z start) as [->|Hne]; [exact Hp|].
    apply (IH (start + 1) Hall). lia.
Qed.

Lemma length_append (a b : string) :
  String.length (a ++ b) = (String.length a + String.length b)%nat.
Proof. induction a as [|c a IH]; cbn; [reflexivity | now rewrite IH]. Qed.

Lemma zero_padded_2 (n : Z) :
  0 <= n < 100 -> String.length (zero_padded 2 n) = 2%nat.
Proof.
  intros Hn.
  assert (Hall : all_from (fun n => (String.length (zero_padded 2 n) =? 2)%nat)
                   0 (Z.to_nat 100) = true) by (vm_compute; reflexivity).
  apply Nat.eqb_eq. apply (all_from_spec _ _ _ Hall). lia.
Qed.

Lemma zero_padded_4 (n : Z) :
  0 <= n < 10000 -> String.length (zero_padded 4 n) = 4%nat.
Proof.
  intros Hn.
  assert (Hall : all_from (fun n => (String.length (zero_padded 4 n) =? 4)%nat)
                   0 (Z.to_nat 10000) = true) by (vm_compute; reflexivity).
  apply Nat.eqb_eq. apply (all_from_spec _ _ _ Hall). lia.
Qed.

(** The calendar repeats every 146097 days, 400 years later. *)
Lemma civil_from_days_era (days k : Z) :
  civil_from_days (days + 146097 * k) =
  let '(year, month, day) := civil_from_days days in
  (year + 400 * k, month, day).
Proof.
  unfold civil_from_days. cbv zeta.
  replace (days + 146097 * k + 719468) with (days + 719468 + k * 146097) by ring.
  rewrite Z.div_add, Z.mod_add by lia.
  f_equal. f_equal. ring.
Qed.

(** The dates of the 146097 days from 0000-03-01 on. *)
Lemma first_era_dates (n : Z) :
  0 <= n < 146097 ->
  let '(year, month, day) := civil_from_days (n - 719468) in
  0 <= year <= 400 /\ 1 <= month <= 12 /\ 1 <= day <= 31
  /\ (306 <= n -> 1 <= year) /\ (n <= 146036 -> year <= 399).
Proof.
  intros Hn.
  assert (Hall :
    all_from
      (fun n =>
         let '(year, month, day) := civil_from_days (n - 719468) in
         (0 <=? year) && (year <=? 400) && (1 <=? month) && (month <=? 12)
         && (1 <=? day) && (day <=? 31)
         && ((n <? 306) || (1 <=? year)) && ((146036 <? n) || (year <=? 399)))
      0 (Z.to_nat 146097) = true) by (vm_compute; reflexivity).
  pose proof (all_from_spec _ _ _ Hall n ltac:(lia)) as H. cbv beta in H.
  destruct (civil_from_days (n - 719468)) as [[year month] day].
  repeat (apply andb_prop in H; destruct H as [H ?]).
  repeat match goal with
         | H : (_ <=? _) = true |- _ => apply Z.leb_le in H
         | H : _ || _ = true |- _ => apply orb_prop in H; rewrite Z.ltb_lt in H
         end.
  lia.
Qed.

(** From year 1 to year 9999 a date has a four-digit year, a month and
    a day. *)
Lemma civil_from_days_range (days : Z) :
  -719162 <= days <= 2932896 ->
  let '(year, month, day) := civil_from_days days in
  1 <= year <= 9999 /\ 1 <= month <= 12 /\ 1 <= day <= 31.
Proof.
  intros Hd.
  set (era := (days + 719468) / 146097).
  set (n := (days + 719468) mod 146097).
  assert (Hsplit : days = n - 719468 + 146097 * era).
  { pose proof (Z.div_mod (days + 719468) 146097 ltac:(lia)).
    subst era n. lia. }
  assert (Hn : 0 <= n < 146097) by (subst n; apply Z.mod_pos_bound; lia).
  assert (Hera : 0 <= era <= 24).
  { subst era. split; [apply Z.div_pos; lia|].
    assert ((days + 719468) / 146097 < 25)
      by (apply Z.div_lt_upper_bound; lia).
    lia. }
  rewrite Hsplit, civil_from_days_era.
  pose proof (first_era_dates n Hn) as H.
  destruct (civil_from_days (n - 719468)) as [[year month] day].
  destruct H as (Hy & Hm & Hday & Hlow & Hhigh).
  split; [|tauto].
  assert (era = 0 -> 306 <= n) by lia.
  assert (era = 24 -> n <= 146036) by lia.
  lia.
Qed.

(** X20.  The rendering of a block time from year 1 to year 9999 has
    exactly 25 characters, the width [_print_human] gives to the
    column. *)
Theorem block_time_width {RT : Runtime} (ts : Z) :
  min_timestamp <= ts <= max_timestamp ->
  exists text,
    _iso_time_from_blocktime (JInt ts) = Ok text
    /\ String.length text = 25%nat.
Proof.
  intros Hts. unfold min_timestamp, max_timestamp in Hts.
  exists (isoformat_utc ts). split.
  - unfold _iso_time_from_blocktime. cbn [is_none fromtimestamp_utc_isoformat].
    unfold fromtimestamp_int, min_timestamp, max_timestamp.
    destruct (Z.leb_spec (-62135596800) ts); [|lia].
    destruct (Z.leb_spec ts 253402300799); [|lia]. reflexivity.
  - unfold isoformat_utc.
    assert (Hdays : -719162 <= ts / 86400 <= 2932896).
    { split; [apply Z.div_le_lower_bound; lia|].
      assert (ts / 86400 < 2932897) by (apply Z.div_lt_upper_bound; lia).
      lia. }
    pose proof (civil_from_days_range _ Hdays) as Hdate.
    destruct (civil_from_days (ts / 86400)) as [[year month] day].
    destruct Hdate as (Hy & Hm & Hday).
    pose proof (Z.mod_pos_bound ts 86400 ltac:(lia)) as Hsec.
    set (sec := ts mod 86400) in *.
    assert (0 <= sec / 3600 < 100).
    { split; [apply Z.div_pos; lia | apply Z.div_lt_upper_bound; lia]. }
    assert (0 <= sec / 60 mod 60 < 100).
    { pose proof (Z.mod_pos_bound (sec / 60) 60 ltac:(lia)). lia. }
    assert (0 <= sec mod 60 < 100).
    { pose proof (Z.mod_pos_bound sec 60 ltac:(lia)). lia. }
    rewrite !length_append, zero_padded_4, !zero_padded_2 by lia.
    reflexivity.
Qed.

(* ------------------------------------------------------------------ *)
(** ** Concrete runs of the further properties                         *)
(* ------------------------------------------------------------------ *)

Lemma token_program_decodes :
  exists bs, base58_decode TOKEN_PROGRAM_ID = Ok bs.
Proof. eexists. vm_compute. reflexivity. Qed.

Lemma base58_decode_preserves_value_witness :
  exists bs,
    base58_decode TOKEN_PROGRAM_ID = Ok bs
    /\ Forall is_byte bs
    /\ big_endian_value 256 bs
       = big_endian_value 58 (map base58_digit (chars TOKEN_PROGRAM_ID)).
Proof.
  destruct token_program_decodes as [bs Hdec].
  exists bs. split; [exact Hdec|].
  exact (base58_decode_preserves_value TOKEN_PROGRAM_ID bs Hdec).
Defined.

Lemma base58_decode_leading_zeros_witness :
  exists core,
    base58_decode "11Tokenkeg" = Ok (0 :: 0 :: core) /\ hd 1 core <> 0.
Proof.
  destruct (base58_decode "11Tokenkeg") as [bs|e] eqn:Hdec;
    [|vm_compute in Hdec; discriminate].
  destruct (base58_decode_leading_zeros "11Tokenkeg" bs Hdec) as (core & -> & Hcore).
  exists core. split; [reflexivity | exact Hcore].
Defined.

Lemma base58_decode_length_witness :
  exists bs,
    base58_decode TOKEN_PROGRAM_ID = Ok bs /\ (List.length bs <= 43)%nat.
Proof.
  destruct token_program_decodes as [bs Hdec].
  exists bs. split; [exact Hdec|].
  exact (base58_decode_length TOKEN_PROGRAM_ID bs Hdec).
Defined.

Lemma valid_address_length_witness :
  (32 <= String.length TOKEN_PROGRAM_ID <= 44)%nat.
Proof.
  apply valid_address_length. vm_compute. reflexivity.
Defined.

Lemma base58_decode_injective_witness :
  lstrip "11" "0" = "11".
Proof.
  apply (base58_decode_injective (lstrip "11" "0") "11" [0; 0]); reflexivity.
Defined.

Lemma base58_decode_prepend_one_witness :
  base58_decode "12" = Ok [0; 1].
Proof.
  apply (base58_decode_prepend_one "2" [1]). reflexivity.
Defined.

(** The first endpoint refuses its four connections, the second one
    answers at once. *)
Lemma request_fails_over_witness :
  exists w',
    request (RT := Sample.runtime) (Sample.flaky 4 Sample.balance_result)
      Sample.client "getBalance" [] Sample.initial
    = (Ok Sample.balance_result, w')
    /\ posts w' = 5%nat.
Proof.
  destruct (request_fails_over (RT := Sample.runtime)
              (Sample.flaky 4 Sample.balance_result) Sample.client
              "getBalance" [] Sample.initial
              ["https://api.mainnet-beta.solana.com"]
              "https://solana.drpc.org" [] 0 Sample.balance_result)
    as (w' & Hreq & _ & Hposts & _).
  - reflexivity.
  - cbn. repeat split; eexists; reflexivity.
  - repeat constructor.
  - intros i Hi. exfalso. exact (Nat.nlt_0_r i Hi).
  - reflexivity.
  - exists w'. split; [exact Hreq | exact Hposts].
Defined.

Lemma request_raises_only_when_exhausted_witness :
  exists exc w',
    request (RT := Sample.runtime) Sample.rate_limited Sample.client
      "getBalance" [] Sample.initial = (Raise exc, w')
    /\ exn_cls exc = RPCError
    /\ count_posts (trace w') = 8%nat.
Proof.
  destruct (request (RT := Sample.runtime) Sample.rate_limited Sample.client
              "getBalance" [] Sample.initial) as [[data|exc] w'] eqn:Hreq;
    [vm_compute in Hreq; discriminate|].
  destruct (request_raises_only_when_exhausted (RT := Sample.runtime)
              Sample.rate_limited Sample.client "getBalance" []
              Sample.initial w' exc Hreq) as (Hcls & _ & [Htrace _] & _).
  exists exc, w'. split; [reflexivity|]. split; [exact Hcls|].
  rewrite Htrace. reflexivity.
Defined.


Lemma request_sleep_bound_witness :
  exists r w',
    request (RT := Sample.runtime) Sample.rate_limited Sample.client
      "getBalance" [] Sample.initial = (r, w')
    /\ (total_sleep (trace w') <= 7)%Q.
Proof.
  destruct (request (RT := Sample.runtime) Sample.rate_limited Sample.client
              "getBalance" [] Sample.initial) as [r w'] eqn:Hreq.
  destruct (request_sleep_bound (RT := Sample.runtime) Sample.rate_limited
              Sample.client "getBalance" [] Sample.initial w' r Hreq)
    as (new & [Htrace _] & Hbound).
  exists r, w'. split; [reflexivity|].
  rewrite Htrace. cbn [Sample.initial trace app].
  eapply Qle_trans; [exact Hbound|]. vm_compute. discriminate.
Defined.

Lemma parse_token_accounts_invariant_witness :
  exists holdings,
    parse_token_accounts (RT := Sample.runtime)
      (JList [Sample.token_record "first"; JDict []]) = Ok holdings
    /\ Forall (fun h => truthy (mint h) = true
                        /\ truthy (token_account h) = true
                        /\ is_none (ui_amount h) = false) holdings.
Proof.
  destruct (parse_token_accounts (RT := Sample.runtime)
              (JList [Sample.token_record "first"; JDict []]))
    as [holdings|e] eqn:Hparse; [|vm_compute in Hparse; discriminate].
  exists holdings. split; [reflexivity|].
  exact (proj2 (parse_token_accounts_invariant (RT := Sample.runtime) _ _ Hparse)).
Defined.

(** A good record, then one whose account data is a base64 pair. *)
Lemma parse_token_accounts_bad_level_witness :
  parse_token_accounts (RT := Sample.runtime)
    (JList [Sample.token_record "first";
            JDict [("pubkey", JStr "second");
                   ("account",
                    JDict [("data", JList [JStr "AQAAAA=="; JStr "base64"])])];
            Sample.token_record "third"])
  = Raise (Exn AttributeError "'list' object has no attribute 'get'").
Proof.
  apply (parse_token_accounts_bad_level (RT := Sample.runtime)
           [Sample.token_record "first"] [Sample.token_record "third"]
           [("pubkey", JStr "second");
            ("account",
             JDict [("data", JList [JStr "AQAAAA=="; JStr "base64"])])]
           (JList [JStr "AQAAAA=="; JStr "base64"])).
  - repeat constructor. eexists. reflexivity.
  - intros [].
  - right. eexists. split; reflexivity.
Defined.

Lemma append_nonempty_l (a b : string) :
  a <> EmptyString -> a ++ b <> EmptyString.
Proof. destruct a; cbn; [congruence | discriminate]. Qed.

Lemma format_fixed_nonempty (decimals : nat) (x : float) :
  format_fixed decimals x <> EmptyString.
Proof.
  unfold format_fixed. destruct x as [s|s| |s m e].
  - apply append_nonempty_r, append_nonempty_l, str_of_int_nonempty.
  - destruct s; discriminate.
  - discriminate.
  - apply append_nonempty_r, append_nonempty_l, str_of_int_nonempty.
Qed.

Lemma decode_signatures_record_by_record_witness :
  exists failed succeeded,
    decode_signatures (RT := Sample.runtime)
      (JList [JDict [("signature", JStr "5h6x");
                     ("err", JDict [("InstructionError",
                                     JList [JInt 0; JStr "Custom"])])];
              Sample.signature_record JNull])
    = Ok [failed; succeeded]
    /\ err failed <> EmptyString
    /\ err succeeded = EmptyString.
Proof.
  destruct (decode_signatures (RT := Sample.runtime)
              (JList [JDict [("signature", JStr "5h6x");
                             ("err", JDict [("InstructionError",
                                             JList [JInt 0; JStr "Custom"])])];
                      Sample.signature_record JNull]))
    as [[|failed [|succeeded [|]]]|e] eqn:Hdec;
    try (vm_compute in Hdec; discriminate).
  destruct (decode_signatures_record_by_record (RT := Sample.runtime) _ _
              (format_fixed_nonempty 1) Hdec) as (entries & Hit & Hall).
  injection Hit as <-.
  inversion Hall as [|? ? ? ? (_ & _ & _ & _ & Hfailed) Hrest]; subst.
  inversion Hrest as [|? ? ? ? (_ & _ & _ & _ & Hsucc) _]; subst.
  exists failed, succeeded. split; [reflexivity|]. split.
  - intros E. apply Hfailed in E. discriminate.
  - apply Hsucc. reflexivity.
Defined.

(** A node that answers [null]. *)
Lemma get_balance_does_not_retry_decoding_witness :
  exists w',
    get_balance (RT := Sample.runtime) (Sample.flaky 0 JNull) Sample.client
      "11111111111111111111111111111111" "confirmed" Sample.initial
    = (Raise (Exn AttributeError "'NoneType' object has no attribute 'get'"),
       w')
    /\ posts w' = 1%nat.
Proof.
  eexists. split.
  - apply (get_balance_does_not_retry_decoding (RT := Sample.runtime)
             (Sample.flaky 0 JNull) Sample.client
             "11111111111111111111111111111111" "confirmed" Sample.initial
             "https://api.mainnet-beta.solana.com" ["https://solana.drpc.org"]
             JNull); reflexivity.
  - reflexivity.
Defined.


Lemma block_time_width_witness :
  exists text,
    _iso_time_from_blocktime (RT := Sample.runtime) (JInt 1700000000) = Ok text
    /\ String.length text = 25%nat.
Proof.
  apply (block_time_width (RT := Sample.runtime)). split; discriminate.
Defined.
